(** * lpd8_voicemeeterish: MIDI knobs to PipeWire sink volumes

    A shallow embedding of [lpd8_voicemeeterish.py] and the properties its
    specification states about it.

    Conventions of the embedding.
    - A Python [str] is a [string]; an [ascii] stands for the code point of
      the same number, so the texts covered are those over U+0000..U+00FF.
      The character classes below ([isspace], decimal digits, line
      boundaries, lower-casing, printability) are CPython's, restricted to
      that range.
    - A Python [int] is a [Z]; a Python [float] is a primitive binary64
      [float], with the IEEE operations of the kernel.
    - A [dict] is an association list in insertion order, as CPython
      iterates it.
    - Code that talks to the outside (subprocess, mido, stdout) runs in a
      small monad over a description of the outside world and a trace of
      the events performed; an exception is a left injection. *)

From Stdlib Require Import ZArith List Lia Bool String Ascii DecimalString.
From Stdlib Require Import Floats.PrimFloat Floats.FloatOps Floats.SpecFloat.
Import ListNotations.

Local Open Scope string_scope.
Local Open Scope Z_scope.

(* ================================================================== *)
(** * Python strings *)
(* ================================================================== *)

Module PyStr.

(** Code point of a character. *)
Definition ord (c : ascii) : Z := Z.of_nat (nat_of_ascii c).

Definition chr (z : Z) : ascii := ascii_of_nat (Z.to_nat z).

(** [Py_UNICODE_ISSPACE] below U+0100: TAB..CR, FS..US, SPACE, NEL, NBSP.
    Both [str.strip] and the pattern class [\s] use it. *)
Definition isspace (c : ascii) : bool :=
  let n := ord c in
  ((9 <=? n) && (n <=? 13)) || ((28 <=? n) && (n <=? 32))
  || (n =? 133) || (n =? 160).

(** [Py_UNICODE_ISDECIMAL] below U+0100: the ten ASCII digits. *)
Definition isdecimal (c : ascii) : bool :=
  let n := ord c in (48 <=? n) && (n <=? 57).

(** Line boundaries of [str.splitlines] below U+0100:
    LF, VT, FF, CR, FS, GS, RS, NEL. *)
Definition islinebreak (c : ascii) : bool :=
  let n := ord c in
  ((10 <=? n) && (n <=? 13)) || ((28 <=? n) && (n <=? 30)) || (n =? 133).

Definition LF : ascii := chr 10.
Definition CR : ascii := chr 13.
Definition DQUOTE : ascii := chr 34.
Definition SQUOTE : ascii := chr 39.
Definition BACKSLASH : ascii := chr 92.

(** [s + c] for a single character. *)
Definition snoc (s : string) (c : ascii) : string := s ++ String c EmptyString.

(** [str.splitlines()]: [cur] is the line being read.  A line boundary
    closes it; CR immediately followed by LF is one boundary; the text
    after the last boundary is a line only when it is not empty. *)
Fixpoint splitlines_from (cur : string) (s : string) : list string :=
  match s with
  | EmptyString => match cur with EmptyString => [] | _ => [cur] end
  | String c rest =>
      if islinebreak c then
        cur :: match rest with
               | String c' rest' =>
                   if Ascii.eqb c CR && Ascii.eqb c' LF
                   then splitlines_from EmptyString rest'
                   else splitlines_from EmptyString rest
               | EmptyString => []
               end
      else splitlines_from (snoc cur c) rest
  end.

Definition splitlines (s : string) : list string := splitlines_from EmptyString s.

(** [str.lstrip()], [str.rstrip()], [str.strip()] with no argument. *)
Fixpoint lstrip (s : string) : string :=
  match s with
  | String c rest => if isspace c then lstrip rest else s
  | EmptyString => EmptyString
  end.

Fixpoint rstrip (s : string) : string :=
  match s with
  | EmptyString => EmptyString
  | String c rest =>
      match rstrip rest with
      | EmptyString => if isspace c then EmptyString else String c EmptyString
      | r => String c r
      end
  end.

Definition strip (s : string) : string := rstrip (lstrip s).

(** [s.startswith(p)]. *)
Definition startswith (s p : string) : bool := String.prefix p s.

(** [x in s] for two strings: [x] occurs at some offset of [s]. *)
Fixpoint contains (s x : string) : bool :=
  String.prefix x s
  || match s with
     | EmptyString => false
     | String _ rest => contains rest x
     end.

(** [str.lower()] below U+0100: A..Z and the Latin-1 capitals
    U+00C0..U+00DE (without the multiplication sign U+00D7) move up by 32. *)
Definition lower_char (c : ascii) : ascii :=
  let n := ord c in
  if ((65 <=? n) && (n <=? 90))
     || ((192 <=? n) && (n <=? 222) && negb (n =? 215))
  then chr (n + 32) else c.

Fixpoint lower (s : string) : string :=
  match s with
  | EmptyString => EmptyString
  | String c rest => String (lower_char c) (lower rest)
  end.

(** [sep.join(parts)]. *)
Fixpoint join (sep : string) (parts : list string) : string :=
  match parts with
  | [] => EmptyString
  | [p] => p
  | p :: rest => p ++ sep ++ join sep rest
  end.

(** [s[i:j]] for [0 <= i <= j]. *)
Definition slice (s : string) (i j : nat) : string := String.substring i (j - i) s.

End PyStr.

(* ================================================================== *)
(** * Regular expressions: the backtracking matcher of [re] *)
(* ================================================================== *)

Module Re.
Import PyStr.

(** One-character items of a pattern. *)
Inductive cclass : Set :=
| Space                (* \s *)
| Digit                (* \d *)
| Dot                  (* .  : anything but a line feed *)
| Lit (c : ascii).     (* a literal, or an escaped punctuation character *)

Definition in_class (k : cclass) (c : ascii) : bool :=
  match k with
  | Space => isspace c
  | Digit => isdecimal c
  | Dot => negb (Ascii.eqb c LF)
  | Lit a => Ascii.eqb c a
  end.

(** The pattern constructs [line_re] is written with.  Every repetition
    in it repeats a one-character item. *)
Inductive regex : Set :=
| Eps                              (* the empty pattern *)
| Bol                              (* ^ *)
| Chr (k : cclass)
| Seq (r1 r2 : regex)
| Opt (r : regex)                  (* r?   greedy *)
| Star (k : cclass)                (* k*   greedy *)
| Plus (k : cclass)                (* k+   greedy *)
| PlusLazy (k : cclass)            (* k+?  lazy *)
| Group (n : nat) (r : regex).     (* (r), the n-th capturing group *)

(** Spans of the groups that took part in the match, latest first. *)
Definition captures : Set := list (nat * (nat * nat)).

(** What remains to be matched: from position [pos], where [rest] starts. *)
Definition cont : Set := nat -> string -> captures -> option captures.

(** Greedy repetition: take one more character first, fall back on the
    continuation. *)
Fixpoint star_greedy (k : cclass) (pos : nat) (s : string) (caps : captures)
         (kont : cont) : option captures :=
  match s with
  | String c rest =>
      if in_class k c then
        match star_greedy k (S pos) rest caps kont with
        | Some m => Some m
        | None => kont pos s caps
        end
      else kont pos s caps
  | EmptyString => kont pos s caps
  end.

(** Lazy repetition: try the continuation first, take one more character
    when it fails. *)
Fixpoint star_lazy (k : cclass) (pos : nat) (s : string) (caps : captures)
         (kont : cont) : option captures :=
  match kont pos s caps with
  | Some m => Some m
  | None =>
      match s with
      | String c rest =>
          if in_class k c then star_lazy k (S pos) rest caps kont else None
      | EmptyString => None
      end
  end.

(** The first successful way of matching [r] at [pos], in the order a
    backtracking matcher tries them. *)
Fixpoint run (r : regex) (pos : nat) (s : string) (caps : captures)
         (kont : cont) : option captures :=
  match r with
  | Eps => kont pos s caps
  | Bol => if Nat.eqb pos 0 then kont pos s caps else None
  | Chr k =>
      match s with
      | String c rest => if in_class k c then kont (S pos) rest caps else None
      | EmptyString => None
      end
  | Seq r1 r2 => run r1 pos s caps (fun pos' s' caps' => run r2 pos' s' caps' kont)
  | Opt r1 =>
      match run r1 pos s caps kont with
      | Some m => Some m
      | None => kont pos s caps
      end
  | Star k => star_greedy k pos s caps kont
  | Plus k =>
      match s with
      | String c rest =>
          if in_class k c then star_greedy k (S pos) rest caps kont else None
      | EmptyString => None
      end
  | PlusLazy k =>
      match s with
      | String c rest =>
          if in_class k c then star_lazy k (S pos) rest caps kont else None
      | EmptyString => None
      end
  | Group n r1 =>
      run r1 pos s caps (fun pos' s' caps' => kont pos' s' ((n, (pos, pos')) :: caps'))
  end.

(** A match object: the subject and the spans of its groups. *)
Record Match : Set := { subject : string; spans : captures }.

(** [pattern.match(s)]: a match anchored at offset 0; the pattern need
    not reach the end of [s]. *)
Definition re_match (r : regex) (s : string) : option Match :=
  match run r 0%nat s [] (fun _ _ caps => Some caps) with
  | Some caps => Some {| subject := s; spans := caps |}
  | None => None
  end.

Fixpoint span_of (n : nat) (caps : captures) : option (nat * nat) :=
  match caps with
  | [] => None
  | (k, sp) :: rest => if Nat.eqb k n then Some sp else span_of n rest
  end.

(** [m.group(n)]: [None] when the group took no part in the match. *)
Definition group (m : Match) (n : nat) : option string :=
  match span_of n (spans m) with
  | Some (i, j) => Some (slice (subject m) i j)
  | None => None
  end.

(** A pattern for a literal text, character by character. *)
Fixpoint lit (s : string) : regex :=
  match s with
  | EmptyString => Eps
  | String c EmptyString => Chr (Lit c)
  | String c rest => Seq (Chr (Lit c)) (lit rest)
  end.

End Re.

(* ================================================================== *)
(** * Exceptions *)
(* ================================================================== *)

(** The exceptions the program can end with. *)
Inductive Exn : Set :=
| CalledProcessError (cmd : list string)   (* [sh]: the command failed or could not be started *)
| RuntimeError (msg : string)
| SystemExit (code : Z)
| ValueError (msg : string)
| TypeError (msg : string)
| OverflowError (msg : string)
| KeyError (key : string)
| AttributeError (name : string)
| BackendError (msg : string).             (* raised inside mido *)

(** A computation that returns or raises. *)
Definition result (A : Type) : Type := (Exn + A)%type.


(* ================================================================== *)
(** * repr, str and int *)
(* ================================================================== *)

Module PyRepr.
Import PyStr.

Definition hex_digit (n : Z) : ascii :=
  if n <? 10 then chr (48 + n) else chr (87 + n).

(** [\xhh] *)
Definition hex_escape (c : ascii) : string :=
  String BACKSLASH (String "x" (String (hex_digit (ord c / 16))
                                 (String (hex_digit (ord c mod 16)) EmptyString))).

(** [str.isprintable] below U+0100, for one character: the controls, DEL,
    U+0080..U+00A0 and the soft hyphen are not printable. *)
Definition isprintable (c : ascii) : bool :=
  let n := ord c in
  (32 <=? n) && negb (n =? 127) && negb ((128 <=? n) && (n <=? 160)) && negb (n =? 173).

Fixpoint has_char (q : ascii) (s : string) : bool :=
  match s with
  | EmptyString => false
  | String c rest => Ascii.eqb c q || has_char q rest
  end.

Definition repr_char (quote c : ascii) : string :=
  if Ascii.eqb c quote || Ascii.eqb c BACKSLASH then String BACKSLASH (String c EmptyString)
  else if Ascii.eqb c (chr 9) then String BACKSLASH "t"
  else if Ascii.eqb c LF then String BACKSLASH "n"
  else if Ascii.eqb c CR then String BACKSLASH "r"
  else if isprintable c then String c EmptyString
  else hex_escape c.

Fixpoint repr_body (quote : ascii) (s : string) : string :=
  match s with
  | EmptyString => EmptyString
  | String c rest => repr_char quote c ++ repr_body quote rest
  end.

(** [repr(s)] for a [str]: single quotes, unless the text has a single
    quote and no double quote. *)
Definition repr_str (s : string) : string :=
  let quote := if has_char SQUOTE s && negb (has_char DQUOTE s) then DQUOTE else SQUOTE in
  String quote (repr_body quote s ++ String quote EmptyString).

(** [repr] of a list whose items have the given texts. *)
Definition repr_list (items : list string) : string :=
  "[" ++ join ", " items ++ "]".

(** [repr] of a pair. *)
Definition repr_pair (a b : string) : string := "(" ++ a ++ ", " ++ b ++ ")".

(** [repr] of a dict whose keys and values have the given texts. *)
Definition repr_dict (items : list (string * string)) : string :=
  "{" ++ join ", " (map (fun kv => fst kv ++ ": " ++ snd kv) items) ++ "}".

End PyRepr.

Module PyInt.
Import PyStr.

(** [sys.get_int_max_str_digits()], CPython's default. *)
Definition int_max_str_digits : nat := 4300.

Definition digit_value (c : ascii) : Z := ord c - 48.

Fixpoint all_decimal (s : string) : bool :=
  match s with
  | EmptyString => true
  | String c rest => isdecimal c && all_decimal rest
  end.

(** Value of a run of decimal digits, most significant first. *)
Fixpoint decimal_value (acc : Z) (s : string) : Z :=
  match s with
  | EmptyString => acc
  | String c rest => decimal_value (10 * acc + digit_value c) rest
  end.

(** [str(n)], also what an f-string field prints for an [int]. *)
Definition str (n : Z) : string := NilZero.string_of_int (Z.to_int n).

Definition invalid_literal (s : string) : Exn :=
  ValueError ("invalid literal for int() with base 10: " ++ PyRepr.repr_str s).

Definition exceeds_limit (s : string) : Exn :=
  ValueError ("Exceeds the limit (" ++ str (Z.of_nat int_max_str_digits)
              ++ " digits) for integer string conversion: value has "
              ++ str (Z.of_nat (String.length s))
              ++ " digits; use sys.set_int_max_str_digits() to increase the limit").

(** [int(s)] on the texts the program converts, which are matches of
    [\d+]: the decimal value, and [ValueError] for more digits than the
    interpreter's limit.  Any other text is reported as an invalid
    literal. *)
Definition int_of_str (s : string) : result Z :=
  match s with
  | EmptyString => inl (invalid_literal s)
  | _ =>
      if all_decimal s then
        if Nat.ltb int_max_str_digits (String.length s)
        then inl (exceeds_limit s)
        else inr (decimal_value 0 s)
      else inl (invalid_literal s)
  end.

End PyInt.

(* ================================================================== *)
(** * Floats: int to float, and round *)
(* ================================================================== *)

Module PyFloat.

(** [float(n)] as the arithmetic operators convert an [int] operand: the
    nearest binary64, ties to even; [OverflowError] when that is out of
    range. *)
Definition of_int (n : Z) : result float :=
  let f := SF2Prim (binary_normalize prec emax n 0 false) in
  if is_infinity f
  then inl (OverflowError "int too large to convert to float")
  else inr f.

(** The integer nearest to [n / d] for [0 < d], ties to the even one. *)
Definition round_half_even (n d : Z) : Z :=
  let q := n / d in
  let r := n mod d in
  if 2 * r <? d then q
  else if d <? 2 * r then q + 1
  else if Z.even q then q else q + 1.

(** [round(x)] with one argument: the integer nearest to the value of
    [x], ties to the even one, as an [int]. *)
Definition round (x : float) : result Z :=
  match Prim2SF x with
  | S754_zero _ => inr 0
  | S754_finite s m e =>
      let v := if 0 <=? e then Z.pos m * 2 ^ e
               else round_half_even (Z.pos m) (2 ^ (- e)) in
      inr (if s then - v else v)
  | S754_infinity _ => inl (OverflowError "cannot convert float infinity to integer")
  | S754_nan => inl (ValueError "cannot convert float NaN to integer")
  end.

End PyFloat.

(* ================================================================== *)
(** * Dictionaries in insertion order *)
(* ================================================================== *)

Module PyDict.
Section Dict.
Context {K V : Type}.
Variable eqb : K -> K -> bool.

Definition dict : Type := list (K * V).

(** [d.get(k)] *)
Fixpoint get (k : K) (d : dict) : option V :=
  match d with
  | [] => None
  | (k', v) :: rest => if eqb k k' then Some v else get k rest
  end.

(** [k in d] *)
Definition mem (k : K) (d : dict) : bool :=
  match get k d with Some _ => true | None => false end.

(** [d[k] = v]: a key already there keeps its place and takes the new
    value, a new key goes last. *)
Fixpoint set (k : K) (v : V) (d : dict) : dict :=
  match d with
  | [] => [(k, v)]
  | (k', v') :: rest =>
      if eqb k k' then (k', v) :: rest else (k', v') :: set k v rest
  end.

(** [list(d.keys())] *)
Definition keys (d : dict) : list K := map fst d.

End Dict.
Arguments dict : clear implicits.
End PyDict.

(* ================================================================== *)
(** * The outside world and the effects of the program *)
(* ================================================================== *)

(** A mido message as the program reads it: its [type], and the
    [control] and [value] attributes when a message of that type has
    them (mido gives both to every [control_change] message). *)
Record Message : Set := {
  type : string;
  control : option Z;
  value : option Z
}.

(** What the program finds outside itself. *)
Record World : Type := {
  (** [subprocess.check_output(cmd, text=True)]: the output, or the error
      of a command that fails or cannot be started *)
  run_command : list string -> result string;
  (** [mido.get_input_names()] *)
  input_names : result (list string);
  (** [mido.open_input(name)]: the messages the port delivers until its
      iteration ends *)
  open_input : string -> result (list Message)
}.

(** What the program does to the outside, in order. *)
Inductive Event : Set :=
| Printed (line : string)
| Ran (cmd : list string)
| ListedInputs
| OpenedInput (name : string)
| Received (msg : Message)
| ClosedInput (name : string).

Definition M (A : Type) : Type := World -> list Event -> result A * list Event.

Definition ret {A : Type} (a : A) : M A := fun _ t => (inr a, t).

Definition bind {A B : Type} (m : M A) (k : A -> M B) : M B :=
  fun w t =>
    match m w t with
    | (inl e, t') => (inl e, t')
    | (inr a, t') => k a w t'
    end.

Definition raise {A : Type} (e : Exn) : M A := fun _ t => (inl e, t).

Definition lift {A : Type} (r : result A) : M A := fun _ t => (r, t).

Definition emit (e : Event) : M unit := fun _ t => (inr tt, (t ++ [e])%list).

Declare Scope py_scope.
Delimit Scope py_scope with py.
Notation "x <- m ;; k" := (bind m (fun x => k))
  (at level 61, m at next level, right associativity) : py_scope.
Notation "m ;;; k" := (bind m (fun _ => k))
  (at level 61, right associativity) : py_scope.
Local Open Scope py_scope.

(** [print(line)] *)
Definition print (line : string) : M unit := emit (Printed line).

(** The exit status the interpreter gives the process. *)
Definition exit_status (r : result unit) : Z :=
  match r with
  | inr _ => 0
  | inl (SystemExit code) => code
  | inl _ => 1
  end.

(* ================================================================== *)
(** * The program *)
(* ================================================================== *)

Section Program.
Import PyStr Re.

(** The CONFIG block.  The source sets [MIDI_PORT_HINT = "LPD8"] and
    [CC_TO_BUS = {1: "VM-GAME", 2: "VM-CHAT", 3: "VM-MUSIC"}] and asks the
    user to adjust them, so the functions below are stated over any
    setting; [default_MIDI_PORT_HINT] and [default_CC_TO_BUS] after the
    section are the ones of the source. *)
Variable MIDI_PORT_HINT : string.
Variable CC_TO_BUS : PyDict.dict Z string.

(** [sh(cmd)] *)
Definition sh (cmd : list string) : M string :=
  fun w t => (run_command w cmd, (t ++ [Ran cmd])%list).

(** [line_re], the compiled pattern, item by item:
    [^]  [\s*]  group 1, optional: [\*?] [\s*]   group 2: [\d+]   [\.]
    [\s+]  group 3: [.+?]   [\s+]   [\[vol:] *)
Definition line_re : regex :=
  Seq Bol
 (Seq (Star Space)
 (Seq (Opt (Group 1 (Seq (Opt (Chr (Lit "*"))) (Star Space))))
 (Seq (Group 2 (Plus Digit))
 (Seq (Chr (Lit "."))
 (Seq (Plus Space)
 (Seq (Group 3 (PlusLazy Dot))
 (Seq (Plus Space)
      (lit "[vol:")))))))).

(** [int(m.group(2))]; a group that took no part is [None], which [int]
    refuses. *)
Definition int_of_group (g : option string) : result Z :=
  match g with
  | Some s => PyInt.int_of_str s
  | None => inl (TypeError "int() argument must be a string, a bytes-like object or a real number, not 'NoneType'")
  end.

(** [m.group(3).strip()] *)
Definition strip_group (g : option string) : result string :=
  match g with
  | Some s => inr (strip s)
  | None => inl (AttributeError "strip")
  end.

(** The [for line in txt.splitlines()] loop of
    [get_sink_ids_by_description], with its two variables
    [sinks_section] and [out]; [continue] goes on with the next line,
    [break] returns. *)
Fixpoint sink_lines_loop (lines : list string) (sinks_section : bool)
         (out : PyDict.dict string Z) : result (PyDict.dict string Z) :=
  match lines with
  | [] => inr out
  | line :: rest =>
      if startswith (strip line) "Sinks:" then
        sink_lines_loop rest true out
      else if sinks_section && startswith (strip line) "Sources:" then
        inr out
      else if negb sinks_section then
        sink_lines_loop rest sinks_section out
      else
        match re_match line_re line with
        | None => sink_lines_loop rest sinks_section out
        | Some m =>
            match int_of_group (group m 2) with
            | inl e => inl e
            | inr sink_id =>
                match strip_group (group m 3) with
                | inl e => inl e
                | inr name =>
                    sink_lines_loop rest sinks_section
                                    (PyDict.set String.eqb name sink_id out)
                end
            end
        end
  end.

(** The body of [get_sink_ids_by_description] after [txt = sh(...)]. *)
Definition parse_sinks (txt : string) : result (PyDict.dict string Z) :=
  sink_lines_loop (splitlines txt) false [].

Definition get_sink_ids_by_description : M (PyDict.dict string Z) :=
  txt <- sh ["wpctl"; "status"] ;;
  lift (parse_sinks txt).

(** [MIDI_PORT_HINT.lower() in p.lower()] *)
Definition port_matches (p : string) : bool :=
  contains (lower p) (lower MIDI_PORT_HINT).

(** The message of the [RuntimeError] of [find_midi_port]. *)
Definition no_port_message (ports : list string) : string :=
  "Could not find MIDI input containing '" ++ MIDI_PORT_HINT ++ "'. Ports: "
  ++ PyRepr.repr_list (map PyRepr.repr_str ports).

(** The [for p in ports] loop of [find_midi_port]: [None] when it runs
    to its end. *)
Fixpoint first_matching_port (ports : list string) : option string :=
  match ports with
  | [] => None
  | p :: rest => if port_matches p then Some p else first_matching_port rest
  end.

Definition find_midi_port : M string :=
  ports <- (fun w t => (input_names w, (t ++ [ListedInputs])%list)) ;;
  match first_matching_port ports with
  | Some p => ret p
  | None => raise (RuntimeError (no_port_message ports))
  end.

(** [pct = int(round((value_0_127 / 127.0) * 100))] *)
Definition percentage (value_0_127 : Z) : result Z :=
  match PyFloat.of_int value_0_127 with
  | inl e => inl e
  | inr x => PyFloat.round (PrimFloat.mul (PrimFloat.div x 127%float) 100%float)
  end.

(** [["wpctl", "set-volume", str(node_id), f"{pct}%"]] *)
Definition set_volume_command (node_id pct : Z) : list string :=
  ["wpctl"; "set-volume"; PyInt.str node_id; PyInt.str pct ++ "%"].

Definition set_volume (node_id : Z) (value_0_127 : Z) : M unit :=
  pct <- lift (percentage value_0_127) ;;
  sh (set_volume_command node_id pct) ;;;
  ret tt.

(** The text printed when a configured bus has no sink. *)
Definition missing_sink_message (bus : string) (sinks : PyDict.dict string Z) : string :=
  "[!] Can't find sink named '" ++ bus
  ++ "' in wpctl status. Current sinks include: "
  ++ PyRepr.repr_list (map PyRepr.repr_str (firstn 12 (PyDict.keys sinks)))
  ++ " ...".

(** [d[k]] *)
Definition getitem {V : Type} (show : Z -> string) (d : PyDict.dict Z V) (k : Z) : M V :=
  match PyDict.get Z.eqb k d with
  | Some v => ret v
  | None => raise (KeyError (show k))
  end.

Definition getitem_str (d : PyDict.dict string Z) (k : string) : M Z :=
  match PyDict.get String.eqb k d with
  | Some v => ret v
  | None => raise (KeyError (PyRepr.repr_str k))
  end.

(** The [for cc, bus in CC_TO_BUS.items()] loop of [main]. *)
Fixpoint resolve_buses (items : list (Z * string)) (sinks : PyDict.dict string Z)
         (bus_ids : PyDict.dict Z Z) : M (PyDict.dict Z Z) :=
  match items with
  | [] => ret bus_ids
  | (cc, bus) :: rest =>
      if negb (PyDict.mem String.eqb bus sinks) then
        print (missing_sink_message bus sinks) ;;;
        raise (SystemExit 1)
      else
        id <- getitem_str sinks bus ;;
        resolve_buses rest sinks (PyDict.set Z.eqb cc id bus_ids)
  end.

(** [{cc: (CC_TO_BUS[cc], bus_ids[cc]) for cc in CC_TO_BUS}] *)
Fixpoint mapping_of (ccs : list Z) (bus_ids : PyDict.dict Z Z)
         (acc : PyDict.dict Z (string * Z)) : M (PyDict.dict Z (string * Z)) :=
  match ccs with
  | [] => ret acc
  | cc :: rest =>
      bus <- getitem PyInt.str CC_TO_BUS cc ;;
      id <- getitem PyInt.str bus_ids cc ;;
      mapping_of rest bus_ids (PyDict.set Z.eqb cc (bus, id) acc)
  end.

Definition repr_mapping (m : PyDict.dict Z (string * Z)) : string :=
  PyRepr.repr_dict
    (map (fun kv => (PyInt.str (fst kv),
                     PyRepr.repr_pair (PyRepr.repr_str (fst (snd kv))) (PyInt.str (snd (snd kv)))))
         m).

(** [msg.control], [msg.value] *)
Definition getattr (name : string) (a : option Z) : M Z :=
  match a with
  | Some v => ret v
  | None => raise (AttributeError name)
  end.

(** The body of [for msg in port]. *)
Definition on_message (bus_ids : PyDict.dict Z Z) (msg : Message) : M unit :=
  if String.eqb (type msg) "control_change" then
    cc <- getattr "control" (control msg) ;;
    val <- getattr "value" (value msg) ;;
    if PyDict.mem Z.eqb cc bus_ids then
      node <- getitem PyInt.str bus_ids cc ;;
      set_volume node val
    else ret tt
  else ret tt.

(** [for msg in port]: the messages are taken one at a time; an exception
    of the body ends the loop. *)
Fixpoint event_loop (bus_ids : PyDict.dict Z Z) (msgs : list Message) : M unit :=
  match msgs with
  | [] => ret tt
  | msg :: rest =>
      emit (Received msg) ;;;
      on_message bus_ids msg ;;;
      event_loop bus_ids rest
  end.

(** [with mido.open_input(name) as port: body]: the port is closed when
    the body returns and when it raises. *)
Definition with_open_input (name : string) (body : list Message -> M unit) : M unit :=
  fun w t =>
    match open_input w name with
    | inl e => (inl e, (t ++ [OpenedInput name])%list)
    | inr msgs =>
        let (r, t') := body msgs w (t ++ [OpenedInput name])%list in
        (r, (t' ++ [ClosedInput name])%list)
    end.

Definition main : M unit :=
  print "Scanning PipeWire sinks..." ;;;
  sinks <- get_sink_ids_by_description ;;
  bus_ids <- resolve_buses CC_TO_BUS sinks [] ;;
  midi_port <- find_midi_port ;;
  print ("Listening on MIDI: " ++ midi_port) ;;;
  mapping <- mapping_of (PyDict.keys CC_TO_BUS) bus_ids [] ;;
  print ("Mapping: " ++ repr_mapping mapping) ;;;
  print "Move knobs now... (Ctrl+C to exit)" ;;;
  with_open_input midi_port (event_loop bus_ids).

End Program.

(** The settings of the source. *)
Definition default_MIDI_PORT_HINT : string := "LPD8".

Definition default_CC_TO_BUS : PyDict.dict Z string :=
  [(1, "VM-GAME"); (2, "VM-CHAT"); (3, "VM-MUSIC")].

(** The script of the toggle, which the source keeps commented out:
    [main] never runs it. *)
Definition TOGGLE_SCRIPT : string := "/home/roaring/bin/toggle_scarlett_speakers.sh".

(* ================================================================== *)
(** * The two resolvers over the interpreter's store *)
(* ================================================================== *)

(** The dict a call of [get_sink_ids_by_description] returns is an object
    of the interpreter: [out = {}] allocates it, [out[name] = sink_id]
    changes it in place, [return out] hands out a reference to it.  Here
    the two resolvers are written over that store, so that what one call
    leaves behind is there for the next one to meet. *)
Section Store.
Import PyStr Re.

(** The interpreter as the resolvers can read and change it: the module
    global [MIDI_PORT_HINT], the dict objects allocated so far (a
    reference is the index of its object), and the events performed. *)
Record Interp : Type := {
  global_MIDI_PORT_HINT : string;
  objects : list (PyDict.dict string Z);
  performed : list Event
}.

Definition with_objects (s : Interp) (objs : list (PyDict.dict string Z)) : Interp :=
  {| global_MIDI_PORT_HINT := global_MIDI_PORT_HINT s;
     objects := objs;
     performed := performed s |}.

Definition with_event (s : Interp) (e : Event) : Interp :=
  {| global_MIDI_PORT_HINT := global_MIDI_PORT_HINT s;
     objects := objects s;
     performed := (performed s ++ [e])%list |}.

Definition SM (A : Type) : Type := World -> Interp -> result A * Interp.

Definition sret {A : Type} (a : A) : SM A := fun _ s => (inr a, s).

Definition sbind {A B : Type} (m : SM A) (k : A -> SM B) : SM B :=
  fun w s =>
    match m w s with
    | (inl e, s') => (inl e, s')
    | (inr a, s') => k a w s'
    end.

Definition sraise {A : Type} (e : Exn) : SM A := fun _ s => (inl e, s).

(** [sh(cmd)] *)
Definition sh_store (cmd : list string) : SM string :=
  fun w s => (run_command w cmd, with_event s (Ran cmd)).

(** [{}]: a new, empty dict object; its reference is the value. *)
Definition new_dict : SM nat :=
  fun _ s => (inr (List.length (objects s)),
              with_objects s (objects s ++ [[]])%list).

(** The objects with the one at [ref] changed by [f]. *)
Fixpoint update_at (ref : nat) (f : PyDict.dict string Z -> PyDict.dict string Z)
         (objs : list (PyDict.dict string Z)) : list (PyDict.dict string Z) :=
  match objs, ref with
  | [], _ => []
  | o :: rest, O => f o :: rest
  | o :: rest, S k => o :: update_at k f rest
  end.

(** [d[k] = v] for the dict object [ref] refers to. *)
Definition setitem (ref : nat) (k : string) (v : Z) : SM unit :=
  fun _ s => (inr tt, with_objects s (update_at ref (PyDict.set String.eqb k v) (objects s))).

(** The loop of [get_sink_ids_by_description], with [out] a reference. *)
Fixpoint sink_lines_loop_store (lines : list string) (sinks_section : bool)
         (out : nat) : SM unit :=
  match lines with
  | [] => sret tt
  | line :: rest =>
      if startswith (strip line) "Sinks:" then
        sink_lines_loop_store rest true out
      else if sinks_section && startswith (strip line) "Sources:" then
        sret tt
      else if negb sinks_section then
        sink_lines_loop_store rest sinks_section out
      else
        match re_match line_re line with
        | None => sink_lines_loop_store rest sinks_section out
        | Some m =>
            match int_of_group (group m 2) with
            | inl e => sraise e
            | inr sink_id =>
                match strip_group (group m 3) with
                | inl e => sraise e
                | inr name =>
                    sbind (setitem out name sink_id)
                          (fun _ => sink_lines_loop_store rest sinks_section out)
                end
            end
        end
  end.

Definition get_sink_ids_by_description_store : SM nat :=
  sbind (sh_store ["wpctl"; "status"]) (fun txt =>
  sbind new_dict (fun out =>
  sbind (sink_lines_loop_store (splitlines txt) false out) (fun _ =>
  sret out))).

(** [find_midi_port], reading the module global. *)
Definition find_midi_port_store : SM string :=
  sbind (fun w s => (input_names w, with_event s ListedInputs)) (fun ports =>
  fun w s =>
    match first_matching_port (global_MIDI_PORT_HINT s) ports with
    | Some p => sret p w s
    | None => sraise (RuntimeError (no_port_message (global_MIDI_PORT_HINT s) ports)) w s
    end).

(** [n] calls one after the other, with their values in order; the first
    exception ends the run. *)
Fixpoint calls {A : Type} (n : nat) (f : SM A) : SM (list A) :=
  match n with
  | O => sret []
  | S k => sbind f (fun a => sbind (calls k f) (fun rest => sret (a :: rest)))
  end.

End Store.

(* ================================================================== *)
(** * Vocabulary of the statements *)
(* ================================================================== *)

Section Vocabulary.
Import PyStr Re.
Local Open Scope py_scope.

(** The values a control-change message can carry. *)
Definition midi_values : list Z := map Z.of_nat (seq 0 128).

(** The percentage in integer arithmetic: [100 v / 127] rounded to the
    nearest integer. *)
Definition nearest_percent (v : Z) : Z := (200 * v + 127) / 254.

Definition percentage_agrees (v : Z) : bool :=
  match percentage v with
  | inr p => (p =? PyFloat.round_half_even (v * 100) 127) && (p =? nearest_percent v)
  | inl _ => false
  end.

(** [x] occurs in [s]. *)
Definition occurs_in (x s : string) : Prop := exists a b : string, s = a ++ x ++ b.

(** The hint occurs in the port name, letter case apart. *)
Definition names_hint (hint p : string) : Prop :=
  occurs_in (lower hint) (lower p).

(** A control-change message, as mido builds it. *)
Definition control_change (cc val : Z) : Message :=
  {| type := "control_change"; control := Some cc; value := Some val |}.

(** An event that locates or opens a MIDI port. *)
Definition touches_midi (e : Event) : bool :=
  match e with
  | ListedInputs | OpenedInput _ | Received _ | ClosedInput _ => true
  | Printed _ | Ran _ => false
  end.

(** Every character of [u] is in the class. *)
Fixpoint all_in (k : cclass) (u : string) : bool :=
  match u with
  | EmptyString => true
  | String c rest => in_class k c && all_in k rest
  end.

(** [reaches r pos s caps pos' s' caps']: the pattern [r] can take the
    matcher from position [pos], where [s] remains, to position [pos'],
    where [s'] remains, recording the spans that turn [caps] into
    [caps']. *)
Fixpoint reaches (r : regex) (pos : nat) (s : string) (caps : captures)
         (pos' : nat) (s' : string) (caps' : captures) : Prop :=
  match r with
  | Eps => pos' = pos /\ s' = s /\ caps' = caps
  | Bol => pos = 0%nat /\ pos' = pos /\ s' = s /\ caps' = caps
  | Chr k =>
      exists c : ascii,
        s = String c s' /\ in_class k c = true /\ pos' = S pos /\ caps' = caps
  | Seq r1 r2 =>
      exists (p1 : nat) (s1 : string) (c1 : captures),
        reaches r1 pos s caps p1 s1 c1 /\ reaches r2 p1 s1 c1 pos' s' caps'
  | Opt r1 =>
      reaches r1 pos s caps pos' s' caps'
      \/ (pos' = pos /\ s' = s /\ caps' = caps)
  | Star k =>
      exists u : string,
        s = u ++ s' /\ all_in k u = true
        /\ pos' = (pos + String.length u)%nat /\ caps' = caps
  | Plus k | PlusLazy k =>
      exists (c : ascii) (u : string),
        s = String c (u ++ s') /\ in_class k c = true /\ all_in k u = true
        /\ pos' = (pos + String.length (String c u))%nat /\ caps' = caps
  | Group n r1 =>
      exists c0 : captures,
        reaches r1 pos s caps pos' s' c0 /\ caps' = (n, (pos, pos')) :: c0
  end.

(** What group 1 can hold: an optional asterisk, then white space. *)
Definition is_marker (mark : string) : Prop :=
  exists u : string, all_in Space u = true /\ (mark = u \/ mark = String "*" u).

(** The two section headers of the status text, as the loop tests them. *)
Definition is_sinks_header (line : string) : bool :=
  startswith (strip line) "Sinks:".

Definition is_sources_header (line : string) : bool :=
  startswith (strip line) "Sources:".

(** The lines after the first one that satisfies [p]. *)
Fixpoint after_first (p : string -> bool) (lines : list string) : list string :=
  match lines with
  | [] => []
  | line :: rest => if p line then rest else after_first p rest
  end.

(** The lines before the first one that satisfies [p]. *)
Fixpoint up_to_first (p : string -> bool) (lines : list string) : list string :=
  match lines with
  | [] => []
  | line :: rest => if p line then [] else line :: up_to_first p rest
  end.

(** The sinks section: what follows the first sinks header, up to the
    next sources header. *)
Definition sinks_section (lines : list string) : list string :=
  up_to_first is_sources_header (after_first is_sinks_header lines).

(** The name and the digits of the identifier on a line the pattern
    matches. *)
Definition entry_of_line (line : string) : option (string * string) :=
  match re_match line_re line with
  | Some m =>
      match group m 3, group m 2 with
      | Some n, Some d => Some (strip n, d)
      | _, _ => None
      end
  | None => None
  end.

Definition entries_of (lines : list string) : list (string * string) :=
  flat_map (fun line => match entry_of_line line with
                        | Some e => [e]
                        | None => []
                        end) lines.

(** The entries of the matching lines of the sinks section, in order. *)
Definition section_entries (lines : list string) : list (string * string) :=
  entries_of (sinks_section lines).

(** The digits on the last entry that carries [name]. *)
Fixpoint last_named (name : string) (entries : list (string * string)) : option string :=
  match entries with
  | [] => None
  | (n, d) :: rest =>
      match last_named name rest with
      | Some d' => Some d'
      | None => if String.eqb name n then Some d else None
      end
  end.

(** A text from its lines, each ended by a line feed. *)
Fixpoint unlines (lines : list string) : string :=
  match lines with
  | [] => EmptyString
  | line :: rest => line ++ String LF (unlines rest)
  end.

(** A world where [wpctl status] prints [status], every other command
    succeeds without output, the MIDI inputs are [ports] and an opened
    port delivers [msgs]. *)
Definition world_of (status : string) (ports : list string) (msgs : list Message) : World :=
  {| run_command := fun cmd =>
       if list_eq_dec string_dec cmd ["wpctl"; "status"]
       then inr status else inr EmptyString;
     input_names := inr ports;
     open_input := fun _ => inr msgs |}.

Definition status_full : string :=
  unlines ["Audio";
           " Sources:";
           "   31. Monitor [vol: 1.00]";
           " Sinks:";
           "   97. VM-GAME [vol: 1.00]";
           "*  103. Astro A50 Game [vol: 1.00]";
           " Sources:";
           "   55. Microphone [vol: 0.80]"].

Definition status_three_buses : string :=
  unlines ["Sinks:";
           "   97. VM-GAME [vol: 1.00]";
           "   98. VM-CHAT [vol: 1.00]";
           "   99. VM-MUSIC [vol: 0.35]";
           "Sources:"].

Definition status_no_sinks : string :=
  unlines ["Audio";
           " Sources:";
           "   97. VM-GAME [vol: 1.00]"].

Definition status_repeated : string :=
  unlines ["Sinks:";
           "   40. VM-GAME [vol: 1.00]";
           "   41. VM-CHAT [vol: 1.00]";
           "   97. VM-GAME [vol: 0.50]";
           "Sources:";
           "  120. VM-GAME [vol: 1.00]"].

Definition note_on : Message :=
  {| type := "note_on"; control := None; value := None |}.

(** ** Event loop *)

(** A message as mido delivers it: a control change has its controller
    and a value in [0,127]. *)
Definition valid_message (msg : Message) : Prop :=
  type msg = "control_change" ->
  exists cc val : Z,
    control msg = Some cc /\ value msg = Some val /\ 0 <= val <= 127.

(** The volume command a message calls for, if any: the one of the node
    its controller is mapped to, at the nearest percentage. *)
Definition command_for (bus_ids : PyDict.dict Z Z) (msg : Message) : list Event :=
  if String.eqb (type msg) "control_change" then
    match control msg, value msg with
    | Some cc, Some val =>
        match PyDict.get Z.eqb cc bus_ids with
        | Some node => [Ran (set_volume_command node (nearest_percent val))]
        | None => []
        end
    | _, _ => []
    end
  else [].

(** ** Startup *)

(** The configured controllers joined with the sink table: controller,
    bus name and node identifier, for the buses that have a sink. *)
Definition joined (CC_TO_BUS : PyDict.dict Z string) (sinks : PyDict.dict string Z)
  : PyDict.dict Z (string * Z) :=
  flat_map (fun kv => match PyDict.get String.eqb (snd kv) sinks with
                      | Some id => [(fst kv, (snd kv, id))]
                      | None => []
                      end) CC_TO_BUS.

(** The bus identifier table: controller to node identifier. *)
Definition bus_table (CC_TO_BUS : PyDict.dict Z string) (sinks : PyDict.dict string Z)
  : PyDict.dict Z Z :=
  map (fun x => (fst x, snd (snd x))) (joined CC_TO_BUS sinks).

(** What a start that succeeds has done before it opens the port. *)
Definition startup_events (CC_TO_BUS : PyDict.dict Z string)
           (sinks : PyDict.dict string Z) (port : string) : list Event :=
  [Printed "Scanning PipeWire sinks...";
   Ran ["wpctl"; "status"];
   ListedInputs;
   Printed ("Listening on MIDI: " ++ port);
   Printed ("Mapping: " ++ repr_mapping (joined CC_TO_BUS sinks));
   Printed "Move knobs now... (Ctrl+C to exit)"].

(** The events of the running phase: messages taken and volume commands. *)
Definition loop_event (e : Event) : Prop :=
  (exists msg : Message, e = Received msg)
  \/ (exists node pct : Z, e = Ran (set_volume_command node pct)).

(** An event that runs no command. *)
Definition runs_nothing (e : Event) : Prop :=
  forall cmd : list string, e <> Ran cmd.

(** ** Sink table *)

(** What a matching line does to the table: [out[name] = int(digits)]. *)
Definition write_entry (out : PyDict.dict string Z) (e : string * string)
  : PyDict.dict string Z :=
  PyDict.set String.eqb (fst e) (PyInt.decimal_value 0 (snd e)) out.

(** Names in order of first appearance, each once. *)
Definition add_name (seen : list string) (name : string) : list string :=
  if existsb (String.eqb name) seen then seen else (seen ++ [name])%list.

Definition first_appearances (names : list string) : list string :=
  fold_left add_name names [].

(** ** Lines in the layout the source documents *)

(** The matcher cannot take the first character of [s] into a run of the
    class: [s] is empty or starts outside the class. *)
Definition stops (k : cclass) (s : string) : Prop :=
  match s with
  | EmptyString => True
  | String c _ => in_class k c = false
  end.

(** A sink name the scan can give back as it is: not empty, on one
    line, with no white space around it, and without the text that ends
    the name field. *)
Definition plain_name (name : string) : Prop :=
  name <> EmptyString
  /\ all_in Dot name = true
  /\ strip name = name
  /\ ~ occurs_in "[vol:" name.

(** A status line for a sink: white space, a marker, the identifier, a
    dot, white space, the name, white space, the volume field. *)
Definition sink_line (lead mark digits sep1 name sep2 rest : string) : string :=
  lead ++ mark ++ digits ++ String "." (sep1 ++ name ++ sep2 ++ "[vol:" ++ rest).

(** ** Status texts in the documented layout *)

(** The text has no line boundary in it. *)
Fixpoint one_line (s : string) : bool :=
  match s with
  | EmptyString => true
  | String c rest => negb (islinebreak c) && one_line rest
  end.

(** The parts of the status line of one sink. *)
Record SinkRow : Set := {
  row_lead : string;
  row_mark : string;
  row_digits : string;
  row_sep1 : string;
  row_name : string;
  row_sep2 : string;
  row_rest : string
}.

Definition row_line (r : SinkRow) : string :=
  sink_line (row_lead r) (row_mark r) (row_digits r) (row_sep1 r)
            (row_name r) (row_sep2 r) (row_rest r).

(** A row laid out as the source expects it, on one line, with an
    identifier [int] accepts. *)
Definition well_laid (r : SinkRow) : Prop :=
  all_in Space (row_lead r) = true
  /\ is_marker (row_mark r)
  /\ row_digits r <> EmptyString
  /\ all_in Digit (row_digits r) = true
  /\ (String.length (row_digits r) <= PyInt.int_max_str_digits)%nat
  /\ row_sep1 r <> EmptyString
  /\ all_in Space (row_sep1 r) = true
  /\ plain_name (row_name r)
  /\ row_sep2 r <> EmptyString
  /\ all_in Space (row_sep2 r) = true
  /\ one_line (row_line r) = true.

(** The table entry of a row. *)
Definition row_entry (r : SinkRow) : string * Z :=
  (row_name r, PyInt.decimal_value 0 (row_digits r)).

(** ** Values outside the MIDI range *)



(** ** Settings and worlds for the concrete runs *)

Fixpoint repeat_char (c : ascii) (n : nat) : string :=
  match n with
  | O => EmptyString
  | S k => String c (repeat_char c k)
  end.

(** A status text with an identifier of 4301 digits. *)
Definition status_long_id : string :=
  unlines ["Sinks:";
           "   97. VM-GAME [vol: 1.00]";
           "   " ++ repeat_char "7" 4301 ++ ". VM-CHAT [vol: 1.00]";
           "Sources:"].

(** A world where no command can be run. *)
Definition world_without_wpctl : World :=
  {| run_command := fun cmd => inl (CalledProcessError cmd);
     input_names := inr [];
     open_input := fun _ => inr [] |}.

Definition row_game : SinkRow :=
  {| row_lead := "   "; row_mark := EmptyString; row_digits := "97";
     row_sep1 := " "; row_name := "VM-GAME"; row_sep2 := " ";
     row_rest := " 1.00]" |}.

Definition row_astro : SinkRow :=
  {| row_lead := " "; row_mark := "*  "; row_digits := "103";
     row_sep1 := " "; row_name := "Astro A50 Game"; row_sep2 := "   ";
     row_rest := " 0.40]" |}.

(** A character that Python's [repr] shows as itself between single
    quotes: printable ASCII, the single quote and the backslash apart. *)
Definition plain_char (c : ascii) : bool :=
  let n := nat_of_ascii c in
  Nat.leb 32 n && Nat.leb n 126 && negb (Nat.eqb n 39) && negb (Nat.eqb n 92).

Fixpoint plain_text (s : string) : bool :=
  match s with
  | EmptyString => true
  | String c rest => plain_char c && plain_text rest
  end.

(** The text between single quotes. *)
Definition quoted (s : string) : string := String "'" (s ++ "'").

(** The texts with a comma and a space between one and the next. *)
Fixpoint comma_separated (items : list string) : string :=
  match items with
  | [] => EmptyString
  | x :: rest =>
      match rest with
      | [] => x
      | _ :: _ => x ++ ", " ++ comma_separated rest
      end
  end.

(** A list of plain texts as Python shows it: ['a', 'b']. *)
Definition shown_list (items : list string) : string :=
  "[" ++ comma_separated (map quoted items) ++ "]".


(** An interpreter in which earlier calls have left a dict behind. *)
Definition used_interp : Interp :=
  {| global_MIDI_PORT_HINT := "LPD8";
     objects := [[("VM-GAME", 5); ("Old", 1)]];
     performed := [] |}.

End Vocabulary.

(* ================================================================== *)
(** * Volume setter: the percentage *)
(* ================================================================== *)

Section Percentage.

Lemma midi_values_complete (v : Z) : 0 <= v <= 127 -> In v midi_values.
Proof.
  intros Hv. unfold midi_values.
  replace v with (Z.of_nat (Z.to_nat v)) by lia.
  apply in_map, in_seq. lia.
Qed.

(** The float computation, run on each of the 128 values. *)
Lemma percentage_table : forallb percentage_agrees midi_values = true.
Proof. vm_compute. reflexivity. Qed.

Lemma percentage_exact (v : Z) :
  0 <= v <= 127 ->
  percentage v = inr (PyFloat.round_half_even (v * 100) 127)
  /\ PyFloat.round_half_even (v * 100) 127 = nearest_percent v.
Proof.
  intros Hv.
  pose proof percentage_table as Htab.
  rewrite forallb_forall in Htab.
  specialize (Htab v (midi_values_complete v Hv)).
  unfold percentage_agrees in Htab.
  destruct (percentage v) as [e | p]; [discriminate |].
  apply andb_true_iff in Htab. destruct Htab as [H1 H2].
  apply Z.eqb_eq in H1. apply Z.eqb_eq in H2.
  split; congruence.
Qed.

Lemma nearest_percent_bounds (v : Z) :
  0 <= v <= 127 -> 0 <= nearest_percent v <= 100.
Proof.
  intros Hv. unfold nearest_percent. split.
  - apply Z.div_pos; lia.
  - assert ((200 * v + 127) / 254 < 101) by (apply Z.div_lt_upper_bound; lia).
    lia.
Qed.

Lemma nearest_percent_mono (v1 v2 : Z) :
  v1 <= v2 -> nearest_percent v1 <= nearest_percent v2.
Proof.
  intros Hle. unfold nearest_percent. apply Z.div_le_mono; lia.
Qed.

(** What [set_volume] does: one command, whatever its outcome. *)
Lemma set_volume_run (node_id v pct : Z) (w : World) (t : list Event) :
  percentage v = inr pct ->
  set_volume node_id v w t =
    (match run_command w (set_volume_command node_id pct) with
     | inl e => inl e
     | inr _ => inr tt
     end,
     (t ++ [Ran (set_volume_command node_id pct)])%list).
Proof.
  intros Hp. unfold set_volume, bind, lift, sh, ret. rewrite Hp.
  destruct (run_command w _); reflexivity.
Qed.

(** The nearest percentage is within one half of the exact quotient. *)
Lemma nearest_percent_is_nearest (v : Z) :
  2 * Z.abs (127 * nearest_percent v - 100 * v) <= 127.
Proof.
  unfold nearest_percent.
  pose proof (Z.div_mod (200 * v + 127) 254) as Hdm.
  pose proof (Z.mod_pos_bound (200 * v + 127) 254) as Hmod.
  lia.
Qed.

(** C1: for every value v in [0,127] [set_volume] computes a percentage p
    that is round(v/127*100): the integer nearest to the exact quotient
    100 v / 127, that is, with |127 p - 100 v| at most 127/2 (127 being
    odd, only one integer is that near).  It lies in [0,100] and it is
    the percentage of the one command [set_volume] runs; and v=0 gives
    0, v=64 gives 50, v=127 gives 100 (and v=1 gives 1, v=100 gives
    79). *)
Theorem set_volume_percentage :
  (forall v : Z, 0 <= v <= 127 ->
     exists p : Z,
       percentage v = inr p
       /\ 2 * Z.abs (127 * p - 100 * v) <= 127
       /\ 0 <= p <= 100
       /\ forall (node_id : Z) (w : World) (t : list Event),
            snd (set_volume node_id v w t)
            = (t ++ [Ran (set_volume_command node_id p)])%list)
  /\ percentage 0 = inr 0
  /\ percentage 64 = inr 50
  /\ percentage 127 = inr 100
  /\ percentage 1 = inr 1
  /\ percentage 100 = inr 79.
Proof.
  split; [| repeat split; vm_compute; reflexivity].
  intros v Hv.
  destruct (percentage_exact v Hv) as [Hp Hn]. rewrite Hn in Hp.
  exists (nearest_percent v).
  split; [exact Hp |].
  split; [apply nearest_percent_is_nearest |].
  split; [apply nearest_percent_bounds, Hv |].
  intros node_id w t. rewrite (set_volume_run node_id v _ w t Hp). reflexivity.
Qed.

(** C10: the percentage is monotone: for v1 <= v2 in [0,127], both
    percentages are computed and the one of v1 is at most the one of v2. *)
Theorem percentage_monotone (v1 v2 : Z) :
  0 <= v1 -> v1 <= v2 -> v2 <= 127 ->
  exists p1 p2 : Z,
    percentage v1 = inr p1 /\ percentage v2 = inr p2 /\ p1 <= p2.
Proof.
  intros H0 H12 H127.
  destruct (percentage_exact v1) as [Hp1 Hn1]; [lia |].
  destruct (percentage_exact v2) as [Hp2 Hn2]; [lia |].
  exists (PyFloat.round_half_even (v1 * 100) 127), (PyFloat.round_half_even (v2 * 100) 127).
  repeat split; try assumption.
  rewrite Hn1, Hn2. apply nearest_percent_mono, H12.
Qed.

Lemma percentage_monotone_witness :
  exists p1 p2 : Z, percentage 63 = inr p1 /\ percentage 64 = inr p2 /\ p1 <= p2.
Proof. apply (percentage_monotone 63 64); lia. Defined.

End Percentage.

(* ================================================================== *)
(** * Facts about strings *)
(* ================================================================== *)

Section StringFacts.
Import PyStr.

Lemma append_assoc (a b c : string) : (a ++ b) ++ c = a ++ (b ++ c).
Proof. induction a as [| x a IH]; simpl; [reflexivity | now rewrite IH]. Qed.

Lemma append_nil_r (a : string) : a ++ EmptyString = a.
Proof. induction a as [| x a IH]; simpl; [reflexivity | now rewrite IH]. Qed.

Lemma prefix_iff (x s : string) :
  String.prefix x s = true <-> exists b : string, s = x ++ b.
Proof.
  revert s. induction x as [| c x IH]; intros s.
  - split; [intros _; exists s; reflexivity | intros _; destruct s; reflexivity].
  - destruct s as [| d s]; simpl.
    + split; [discriminate | intros [b Hb]; discriminate].
    + destruct (ascii_dec c d) as [-> | Hne].
      * rewrite IH. split; intros [b Hb]; exists b; congruence.
      * split; [discriminate | intros [b Hb]; congruence].
Qed.

Lemma contains_iff (s x : string) : contains s x = true <-> occurs_in x s.
Proof.
  induction s as [| c s IH].
  - unfold contains. rewrite orb_false_r, prefix_iff. split.
    + intros [b Hb]. exists EmptyString, b. exact Hb.
    + intros [a [b Hab]]. destruct a; simpl in Hab.
      * exists b. exact Hab.
      * discriminate.
  - change (contains (String c s) x)
      with (String.prefix x (String c s) || contains s x).
    rewrite orb_true_iff, IH, prefix_iff. split.
    + intros [[b Hb] | [a [b Hab]]].
      * exists EmptyString, b. exact Hb.
      * exists (String c a), b. simpl. now rewrite Hab.
    + intros [a [b Hab]]. destruct a as [| d a]; simpl in Hab.
      * left. exists b. exact Hab.
      * right. exists a, b. congruence.
Qed.

Lemma occurs_in_refl (x : string) : occurs_in x x.
Proof. exists EmptyString, EmptyString. simpl. now rewrite append_nil_r. Qed.

Lemma occurs_in_app_l (x s p : string) : occurs_in x s -> occurs_in x (p ++ s).
Proof.
  intros [a [b Hab]]. exists (p ++ a), b. now rewrite Hab, append_assoc.
Qed.

Lemma occurs_in_app_r (x s q : string) : occurs_in x s -> occurs_in x (s ++ q).
Proof.
  intros [a [b Hab]]. exists a, (b ++ q). now rewrite Hab, !append_assoc.
Qed.

Lemma occurs_in_join (sep x : string) (parts : list string) :
  In x parts -> occurs_in x (join sep parts).
Proof.
  induction parts as [| p parts IH]; intros Hin; [contradiction |].
  destruct parts as [| p' parts].
  - destruct Hin as [-> | []]. apply occurs_in_refl.
  - change (join sep (p :: p' :: parts)) with (p ++ sep ++ join sep (p' :: parts)).
    destruct Hin as [-> | Hin].
    + apply occurs_in_app_r, occurs_in_refl.
    + apply occurs_in_app_l, occurs_in_app_l, IH, Hin.
Qed.

Lemma occurs_in_repr_list (x : string) (items : list string) :
  In x items -> occurs_in x (PyRepr.repr_list items).
Proof.
  intros Hin. unfold PyRepr.repr_list.
  apply occurs_in_app_l, occurs_in_app_r, occurs_in_join, Hin.
Qed.

Lemma plain_char_repr (c : ascii) :
  plain_char c = true ->
  PyRepr.repr_char SQUOTE c = String c EmptyString /\ Ascii.eqb c SQUOTE = false.
Proof.
  intros H.
  destruct c as [[] [] [] [] [] [] [] []];
    vm_compute in H; try discriminate H; split; vm_compute; reflexivity.
Qed.

Lemma plain_text_repr_body (s : string) :
  plain_text s = true ->
  PyRepr.repr_body SQUOTE s = s /\ PyRepr.has_char SQUOTE s = false.
Proof.
  induction s as [| c s IH]; [now split |].
  cbn [plain_text]. rewrite andb_true_iff. intros [Hc Hs].
  destruct (plain_char_repr c Hc) as [Hrepr Hquote].
  destruct (IH Hs) as [Hbody Hhas].
  cbn [PyRepr.repr_body PyRepr.has_char].
  rewrite Hrepr, Hquote, Hbody, Hhas. now split.
Qed.

(** The repr of a plain text is the text between single quotes. *)
Lemma repr_str_plain (s : string) :
  plain_text s = true -> PyRepr.repr_str s = quoted s.
Proof.
  intros H. destruct (plain_text_repr_body s H) as [Hbody Hhas].
  unfold PyRepr.repr_str, quoted. rewrite Hhas. cbn [andb]. rewrite Hbody. reflexivity.
Qed.

Lemma join_comma_separated (items : list string) :
  join ", " items = comma_separated items.
Proof.
  induction items as [| x [| y rest] IH]; [reflexivity | reflexivity |].
  change (join ", " (x :: y :: rest)) with (x ++ ", " ++ join ", " (y :: rest)).
  now rewrite IH.
Qed.

Lemma map_repr_str_plain (items : list string) :
  (forall q : string, In q items -> plain_text q = true) ->
  map PyRepr.repr_str items = map quoted items.
Proof.
  intros H. apply map_ext_in. intros q Hq. apply repr_str_plain, H, Hq.
Qed.

(** The repr of a list of plain texts. *)
Lemma repr_list_plain (items : list string) :
  (forall q : string, In q items -> plain_text q = true) ->
  PyRepr.repr_list (map PyRepr.repr_str items) = shown_list items.
Proof.
  intros H. unfold PyRepr.repr_list, shown_list.
  now rewrite (map_repr_str_plain items H), join_comma_separated.
Qed.

End StringFacts.

(* ================================================================== *)
(** * Port locator *)
(* ================================================================== *)

Section PortLocator.
Import PyStr.
Variable MIDI_PORT_HINT : string.

Lemma port_matches_iff (p : string) :
  port_matches MIDI_PORT_HINT p = true <-> names_hint MIDI_PORT_HINT p.
Proof. unfold port_matches, names_hint. apply contains_iff. Qed.


Lemma first_matching_port_none (ports : list string) :
  first_matching_port MIDI_PORT_HINT ports = None <->
  forall q : string, In q ports -> ~ names_hint MIDI_PORT_HINT q.
Proof.
  induction ports as [| q ports IH]; simpl.
  - split; [intros _ r [] | reflexivity].
  - destruct (port_matches MIDI_PORT_HINT q) eqn:Hq.
    + split; [discriminate |].
      intros H. exfalso. apply (H q); [now left | now apply port_matches_iff].
    + rewrite IH. split.
      * intros H r [<- | Hr]; [| now apply H].
        rewrite <- port_matches_iff, Hq. discriminate.
      * intros H r Hr. apply H. now right.
Qed.


End PortLocator.

(* ================================================================== *)
(** * Facts about dictionaries *)
(* ================================================================== *)

Section DictFacts.
Context {K V : Type}.
Variable eqb : K -> K -> bool.
Hypothesis eqb_spec : forall x y : K, reflect (x = y) (eqb x y).

Lemma get_set (k k' : K) (v : V) (d : PyDict.dict K V) :
  PyDict.get eqb k (PyDict.set eqb k' v d)
  = if eqb k k' then Some v else PyDict.get eqb k d.
Proof.
  induction d as [| [k0 v0] d IH]; simpl.
  - reflexivity.
  - destruct (eqb_spec k' k0) as [-> | Hne]; simpl.
    + destruct (eqb k k0); reflexivity.
    + rewrite IH. destruct (eqb_spec k k0) as [-> | Hne'].
      * destruct (eqb_spec k0 k'); [congruence | reflexivity].
      * reflexivity.
Qed.

Lemma mem_set (k k' : K) (v : V) (d : PyDict.dict K V) :
  PyDict.mem eqb k (PyDict.set eqb k' v d) = eqb k k' || PyDict.mem eqb k d.
Proof.
  unfold PyDict.mem. rewrite get_set. destruct (eqb k k'); reflexivity.
Qed.

End DictFacts.

(* ================================================================== *)
(** * The two resolvers keep no state *)
(* ================================================================== *)

Section NoState.
Import PyStr.

Lemma update_at_last (f : PyDict.dict string Z -> PyDict.dict string Z)
      (objs : list (PyDict.dict string Z)) (d : PyDict.dict string Z) :
  update_at (List.length objs) f (objs ++ [d])%list = (objs ++ [f d])%list.
Proof. induction objs as [| o objs IH]; simpl; [reflexivity | now rewrite IH]. Qed.

(** The loop changes the object [out] refers to, and nothing else: it
    leaves there what the loop over a local table computes. *)
Lemma sink_lines_loop_store_last (w : World) (hint : string) (t : list Event)
      (objs : list (PyDict.dict string Z)) (lines : list string) :
  forall (sinks_section : bool) (d : PyDict.dict string Z),
  exists d' : PyDict.dict string Z,
    sink_lines_loop_store lines sinks_section (List.length objs) w
      {| global_MIDI_PORT_HINT := hint; objects := (objs ++ [d])%list; performed := t |}
    = (match sink_lines_loop lines sinks_section d with
       | inr _ => inr tt
       | inl e => inl e
       end,
       {| global_MIDI_PORT_HINT := hint; objects := (objs ++ [d'])%list; performed := t |})
    /\ forall table : PyDict.dict string Z,
         sink_lines_loop lines sinks_section d = inr table -> d' = table.
Proof.
  induction lines as [| line rest IH]; intros b d.
  - exists d. split; [reflexivity | now intros table [= <-]].
  - simpl sink_lines_loop_store. simpl sink_lines_loop.
    destruct (startswith (strip line) "Sinks:"); [apply IH |].
    destruct (b && startswith (strip line) "Sources:").
    { exists d. split; [reflexivity | now intros table [= <-]]. }
    destruct (negb b); [apply IH |].
    destruct (Re.re_match line_re line) as [m |]; [| apply IH].
    destruct (int_of_group (Re.group m 2)) as [e | sink_id].
    { exists d. split; [reflexivity | discriminate]. }
    destruct (strip_group (Re.group m 3)) as [e | name].
    { exists d. split; [reflexivity | discriminate]. }
    unfold sbind, setitem, with_objects. cbn [objects global_MIDI_PORT_HINT performed].
    rewrite update_at_last. apply IH.
Qed.

(** One call of the sink resolver, from any state of the interpreter. *)
Lemma get_sink_ids_store_call (w : World) (s : Interp) :
  match run_command w ["wpctl"; "status"] with
  | inr txt =>
      match parse_sinks txt with
      | inr table =>
          get_sink_ids_by_description_store w s
          = (inr (List.length (objects s)),
             {| global_MIDI_PORT_HINT := global_MIDI_PORT_HINT s;
                objects := (objects s ++ [table])%list;
                performed := (performed s ++ [Ran ["wpctl"; "status"]])%list |})
      | inl e => fst (get_sink_ids_by_description_store w s) = inl e
      end
  | inl e => fst (get_sink_ids_by_description_store w s) = inl e
  end.
Proof.
  destruct s as [hint objs t].
  unfold get_sink_ids_by_description_store, sbind, sh_store, new_dict, sret,
    with_objects, with_event.
  cbn [objects global_MIDI_PORT_HINT performed].
  destruct (run_command w ["wpctl"; "status"]) as [e | txt]; [reflexivity |].
  destruct (sink_lines_loop_store_last w hint (t ++ [Ran ["wpctl"; "status"]])%list
              objs (splitlines txt) false []) as (d' & Hrun & Htable).
  match goal with
  | |- context [sink_lines_loop_store ?l ?b ?r ?w0 ?s0] =>
      replace (sink_lines_loop_store l b r w0 s0) with
        (match sink_lines_loop (splitlines txt) false [] with
         | inr _ => inr tt
         | inl e => @inl Exn unit e
         end,
         {| global_MIDI_PORT_HINT := hint; objects := (objs ++ [d'])%list;
            performed := (t ++ [Ran ["wpctl"; "status"]])%list |})
        by (symmetry; exact Hrun)
  end.
  unfold parse_sinks.
  destruct (sink_lines_loop (splitlines txt) false []) as [e | table]; [reflexivity |].
  now rewrite (Htable table eq_refl).
Qed.

(** One call of the port locator, from any state of the interpreter. *)
Lemma find_midi_port_store_call (w : World) (s : Interp) :
  find_midi_port_store w s
  = (match input_names w with
     | inr ports =>
         match first_matching_port (global_MIDI_PORT_HINT s) ports with
         | Some p => inr p
         | None => inl (RuntimeError (no_port_message (global_MIDI_PORT_HINT s) ports))
         end
     | inl e => inl e
     end,
     with_event s ListedInputs).
Proof.
  unfold find_midi_port_store, sbind, sret, sraise.
  destruct (input_names w) as [e | ports]; [reflexivity |].
  cbn [global_MIDI_PORT_HINT with_event].
  destruct (first_matching_port (global_MIDI_PORT_HINT s) ports); reflexivity.
Qed.

(** C8: with the outside world unchanged, the two resolvers keep nothing
    from one call to the next.  From any state of the interpreter,
    whatever earlier calls have left in it, [n] calls of the sink
    resolver in a row return references to [n] new dict objects that all
    hold the same mapping, the one read off the status text; the objects
    that were there before, the mappings of earlier calls among them, are
    left as they were, and so is the module global.  [n] calls of the
    port locator return the same port name [n] times and change no
    object.  When a call raises, the first of the calls raises that
    exception. *)
Theorem resolvers_keep_no_state (w : World) (s : Interp) (n : nat) :
  match run_command w ["wpctl"; "status"] with
  | inr txt =>
      match parse_sinks txt with
      | inr table =>
          exists s' : Interp,
            calls n get_sink_ids_by_description_store w s
            = (inr (seq (List.length (objects s)) n), s')
            /\ objects s' = (objects s ++ repeat table n)%list
            /\ global_MIDI_PORT_HINT s' = global_MIDI_PORT_HINT s
      | inl e => fst (calls (S n) get_sink_ids_by_description_store w s) = inl e
      end
  | inl e => fst (calls (S n) get_sink_ids_by_description_store w s) = inl e
  end
  /\ match input_names w with
     | inr ports =>
         match first_matching_port (global_MIDI_PORT_HINT s) ports with
         | Some p =>
             exists s' : Interp,
               calls n find_midi_port_store w s = (inr (repeat p n), s')
               /\ objects s' = objects s
               /\ global_MIDI_PORT_HINT s' = global_MIDI_PORT_HINT s
         | None =>
             fst (calls (S n) find_midi_port_store w s)
             = inl (RuntimeError (no_port_message (global_MIDI_PORT_HINT s) ports))
         end
     | inl e => fst (calls (S n) find_midi_port_store w s) = inl e
     end.
Proof.
  split.
  - pose proof (get_sink_ids_store_call w) as Hcall.
    destruct (run_command w ["wpctl"; "status"]) as [e | txt].
    { cbn [calls]. unfold sbind at 1. specialize (Hcall s).
      destruct (get_sink_ids_by_description_store w s) as [[e' | r] s1];
        cbn [fst] in Hcall |- *; congruence. }
    destruct (parse_sinks txt) as [e | table].
    { cbn [calls]. unfold sbind at 1. specialize (Hcall s).
      destruct (get_sink_ids_by_description_store w s) as [[e' | r] s1];
        cbn [fst] in Hcall |- *; congruence. }
    revert s. induction n as [| n IH]; intros s.
    + exists s. cbn [calls repeat seq]. unfold sret. now rewrite app_nil_r.
    + cbn [calls]. unfold sbind at 1. rewrite (Hcall s).
      unfold sbind at 1.
      destruct (IH {| global_MIDI_PORT_HINT := global_MIDI_PORT_HINT s;
                      objects := (objects s ++ [table])%list;
                      performed := (performed s ++ [Ran ["wpctl"; "status"]])%list |})
        as (s' & Hrun & Hobjs & Hhint).
      rewrite Hrun. cbn [objects global_MIDI_PORT_HINT] in Hobjs, Hhint.
      exists s'. unfold sret. split; [| split; [| exact Hhint]].
      * cbn [objects]. rewrite length_app, Nat.add_1_r. reflexivity.
      * rewrite Hobjs, <- app_assoc. reflexivity.
  - pose proof (find_midi_port_store_call w) as Hcall.
    destruct (input_names w) as [e | ports].
    { cbn [calls]. unfold sbind at 1. now rewrite (Hcall s). }
    destruct (first_matching_port (global_MIDI_PORT_HINT s) ports) as [p |] eqn:Hp.
    + revert s Hp. induction n as [| n IH]; intros s Hp.
      * exists s. now split.
      * cbn [calls]. unfold sbind at 1. rewrite (Hcall s), Hp.
        unfold sbind at 1.
        destruct (IH (with_event s ListedInputs) Hp) as (s' & Hrun & Hobjs & Hhint).
        rewrite Hrun. exists s'. unfold sret. now repeat split.
    + cbn [calls]. unfold sbind at 1. now rewrite (Hcall s), Hp.
Qed.

End NoState.

(* ================================================================== *)
(** * Event loop *)
(* ================================================================== *)

Section EventLoop.
Local Open Scope py_scope.

Lemma percentage_100 : percentage 100 = inr 79.
Proof. vm_compute. reflexivity. Qed.

Lemma set_volume_command_97_79 :
  set_volume_command 97 79 = ["wpctl"; "set-volume"; "97"; "79%"].
Proof. vm_compute. reflexivity. Qed.

(** The body of the loop on a control-change message whose controller is
    in the table. *)
Lemma on_message_mapped (bus_ids : PyDict.dict Z Z) (cc val node pct : Z)
      (w : World) (t : list Event) :
  PyDict.get Z.eqb cc bus_ids = Some node ->
  percentage val = inr pct ->
  on_message bus_ids (control_change cc val) w t =
    (match run_command w (set_volume_command node pct) with
     | inl e => inl e
     | inr _ => inr tt
     end,
     (t ++ [Ran (set_volume_command node pct)])%list).
Proof.
  intros Hget Hpct. unfold on_message, control_change. simpl.
  unfold bind at 1. simpl. unfold bind at 1. simpl.
  unfold PyDict.mem. rewrite Hget.
  unfold bind at 1, getitem. rewrite Hget. simpl.
  apply set_volume_run, Hpct.
Qed.

(** C5: when the control-change message with controller 1 and value 100
    arrives and the table maps controller 1 to node 97, the loop runs the
    volume command with the arguments "97" and "79%", right after taking
    the message, and goes on with the next message when the command
    succeeds. *)
Theorem event_loop_volume_command (bus_ids : PyDict.dict Z Z)
        (rest : list Message) (w : World) (t : list Event) :
  PyDict.get Z.eqb 1 bus_ids = Some 97 ->
  event_loop bus_ids (control_change 1 100 :: rest) w t =
    match run_command w ["wpctl"; "set-volume"; "97"; "79%"] with
    | inl e =>
        (inl e, (t ++ [Received (control_change 1 100)]
                   ++ [Ran ["wpctl"; "set-volume"; "97"; "79%"]])%list)
    | inr _ =>
        event_loop bus_ids rest w
          (t ++ [Received (control_change 1 100)]
             ++ [Ran ["wpctl"; "set-volume"; "97"; "79%"]])%list
    end.
Proof.
  intros Hget.
  change (event_loop bus_ids (control_change 1 100 :: rest))
    with (emit (Received (control_change 1 100)) ;;;
          on_message bus_ids (control_change 1 100) ;;;
          event_loop bus_ids rest).
  unfold bind at 1. unfold emit at 1. unfold bind at 1.
  rewrite (on_message_mapped bus_ids 1 100 97 79 w _ Hget percentage_100).
  rewrite set_volume_command_97_79, <- app_assoc.
  destruct (run_command w _); reflexivity.
Qed.

(** The body of the loop adds nothing to the trace when the message is
    not a control change, or names a controller outside the table. *)
Lemma on_message_unmapped (bus_ids : PyDict.dict Z Z) (msg : Message)
      (w : World) (t : list Event) :
  type msg <> "control_change"
  \/ (exists cc : Z, control msg = Some cc /\ PyDict.mem Z.eqb cc bus_ids = false) ->
  snd (on_message bus_ids msg w t) = t
  /\ (type msg <> "control_change" \/ (exists val : Z, value msg = Some val) ->
      fst (on_message bus_ids msg w t) = inr tt).
Proof.
  intros Hcase. unfold on_message.
  destruct (String.eqb_spec (type msg) "control_change") as [Heq | Hne].
  - destruct Hcase as [Hne | [cc [Hcc Hmem]]]; [contradiction |].
    rewrite Hcc. unfold bind at 1. simpl.
    destruct (value msg) as [val |]; unfold bind; simpl.
    + rewrite Hmem. split; [reflexivity | reflexivity].
    + split; [reflexivity |].
      intros [Hne | [val Hval]]; [contradiction | discriminate].
  - split; reflexivity.
Qed.

(** The keys of the table [main] builds are the configured controllers. *)
Lemma resolve_buses_keys (items : list (Z * string)) (sinks : PyDict.dict string Z) :
  forall (acc bus_ids : PyDict.dict Z Z) (w : World) (t t' : list Event),
    resolve_buses items sinks acc w t = (inr bus_ids, t') ->
    forall cc : Z,
      PyDict.mem Z.eqb cc bus_ids
      = PyDict.mem Z.eqb cc acc || existsb (fun kv => Z.eqb cc (fst kv)) items.
Proof.
  induction items as [| [c bus] items IH]; intros acc bus_ids w t t' Hrun cc.
  - simpl in Hrun. unfold ret in Hrun. injection Hrun as -> _.
    simpl. now rewrite orb_false_r.
  - simpl in Hrun.
    destruct (PyDict.mem String.eqb bus sinks) eqn:Hmem; simpl in Hrun.
    + unfold bind at 1, getitem_str in Hrun.
      unfold PyDict.mem in Hmem.
      destruct (PyDict.get String.eqb bus sinks) as [id |]; [| discriminate].
      simpl in Hrun.
      rewrite (IH _ _ _ _ _ Hrun cc), (mem_set Z.eqb Z.eqb_spec).
      simpl. destruct (cc =? c); destruct (PyDict.mem Z.eqb cc acc); reflexivity.
    + unfold bind, print, emit, raise in Hrun. discriminate.
Qed.

(** C6: a message that is not a control change, or whose controller is
    not a key of the table, makes the loop run no command: the body
    leaves the trace as it was, and the loop goes on with the next
    message having recorded only the receipt.  Controller 5 is such a
    controller for every table built from the mapping of the source. *)
Theorem event_loop_ignores (bus_ids : PyDict.dict Z Z) (msg : Message)
        (rest : list Message) (w : World) (t : list Event) :
  type msg <> "control_change"
  \/ (exists cc : Z, control msg = Some cc /\ PyDict.mem Z.eqb cc bus_ids = false) ->
  snd (on_message bus_ids msg w t) = t
  /\ (type msg <> "control_change" \/ (exists val : Z, value msg = Some val) ->
      event_loop bus_ids (msg :: rest) w t
      = event_loop bus_ids rest w (t ++ [Received msg])%list)
  /\ (forall (sinks : PyDict.dict string Z) (w0 : World) (t0 t1 : list Event),
        resolve_buses default_CC_TO_BUS sinks [] w0 t0 = (inr bus_ids, t1) ->
        forall val : Z,
          event_loop bus_ids (control_change 5 val :: rest) w t
          = event_loop bus_ids rest w (t ++ [Received (control_change 5 val)])%list).
Proof.
  intros Hcase.
  assert (Hloop : forall (m : Message) (t0 : list Event),
             (type m <> "control_change"
              \/ (exists cc : Z, control m = Some cc
                                 /\ PyDict.mem Z.eqb cc bus_ids = false)) ->
             (type m <> "control_change" \/ (exists val : Z, value m = Some val)) ->
             event_loop bus_ids (m :: rest) w t0
             = event_loop bus_ids rest w (t0 ++ [Received m])%list).
  { intros m t0 Hc Hwf.
    change (event_loop bus_ids (m :: rest))
      with (emit (Received m) ;;; on_message bus_ids m ;;; event_loop bus_ids rest).
    unfold bind at 1. unfold emit at 1. unfold bind at 1.
    destruct (on_message_unmapped bus_ids m w (t0 ++ [Received m])%list Hc) as [Htr Hres].
    specialize (Hres Hwf).
    destruct (on_message bus_ids m w (t0 ++ [Received m])%list) as [r tr].
    simpl in Htr, Hres. subst. reflexivity. }
  split; [apply (on_message_unmapped bus_ids msg w t Hcase) |].
  split; [intros Hwf; now apply Hloop |].
  intros sinks w0 t0 t1 Hrun val. apply Hloop.
  - right. exists 5. split; [reflexivity |].
    rewrite (resolve_buses_keys _ _ _ _ _ _ _ Hrun 5). reflexivity.
  - right. now exists val.
Qed.

End EventLoop.

(* ================================================================== *)
(** * Startup *)
(* ================================================================== *)

Section Startup.
Local Open Scope py_scope.
Variable MIDI_PORT_HINT : string.
Variable CC_TO_BUS : PyDict.dict Z string.

(** The loop over the configuration stops at the first bus that has no
    sink, having printed the diagnostic. *)
Lemma resolve_buses_first_missing (sinks : PyDict.dict string Z)
      (items : list (Z * string)) :
  (exists (cc : Z) (bus : string),
      In (cc, bus) items /\ PyDict.mem String.eqb bus sinks = false) ->
  forall (acc : PyDict.dict Z Z) (w : World) (t : list Event),
  exists (found : list (Z * string)) (cc : Z) (bus : string) (rest : list (Z * string)),
    items = (found ++ (cc, bus) :: rest)%list
    /\ (forall (c : Z) (b : string),
          In (c, b) found -> PyDict.mem String.eqb b sinks = true)
    /\ PyDict.mem String.eqb bus sinks = false
    /\ resolve_buses items sinks acc w t
       = (inl (SystemExit 1), (t ++ [Printed (missing_sink_message bus sinks)])%list).
Proof.
  induction items as [| [c b] items IH]; intros [cc [bus [Hin Hmem]]] acc w t.
  - contradiction.
  - simpl. destruct (PyDict.mem String.eqb b sinks) eqn:Hb; simpl.
    + destruct Hin as [Heq | Hin]; [congruence |].
      unfold bind at 1, getitem_str. pose proof Hb as Hb'. unfold PyDict.mem in Hb'.
      destruct (PyDict.get String.eqb b sinks) as [id |]; [| discriminate].
      simpl.
      destruct (IH (ex_intro _ cc (ex_intro _ bus (conj Hin Hmem)))
                   (PyDict.set Z.eqb c id acc) w t)
        as (found & cc' & bus' & rest & Hsplit & Hfound & Hmem' & Hrun).
      exists ((c, b) :: found), cc', bus', rest.
      split; [simpl; now rewrite Hsplit |].
      split; [| split; [exact Hmem' | exact Hrun]].
      intros c0 b0 [[= <- <-] | Hin0]; [exact Hb | now apply (Hfound c0)].
    + exists [], c, b, items.
      split; [reflexivity |]. split; [intros c0 b0 [] |]. split; [exact Hb | reflexivity].
Qed.

(** C4: when a configured bus name is not a key of the scraped sink
    table, [main] ends with SystemExit(1), so with exit status 1, at the
    first such bus in the order of the configuration.  All it has done by
    then is print the banner, run the status command and print the
    diagnostic; no MIDI port has been listed or opened.  The diagnostic
    names the missing bus and lists the first twelve known sink names:
    the repr of each occurs in it, for a plain name that is the name
    between single quotes, and when those names are all plain the
    diagnostic is, to the letter, the fixed text around the bus name,
    followed by the names between single quotes, comma separated in the
    order of the table, within square brackets, and three dots. *)
Theorem main_fails_fast (w : World) (txt : string) (sinks : PyDict.dict string Z) :
  run_command w ["wpctl"; "status"] = inr txt ->
  parse_sinks txt = inr sinks ->
  (exists (cc : Z) (bus : string),
      In (cc, bus) CC_TO_BUS /\ PyDict.mem String.eqb bus sinks = false) ->
  exists (found : list (Z * string)) (cc : Z) (bus : string)
         (rest : list (Z * string)) (diagnostic : string),
    CC_TO_BUS = (found ++ (cc, bus) :: rest)%list
    /\ (forall (c : Z) (b : string),
          In (c, b) found -> PyDict.mem String.eqb b sinks = true)
    /\ In (cc, bus) CC_TO_BUS
    /\ PyDict.mem String.eqb bus sinks = false
    /\ main MIDI_PORT_HINT CC_TO_BUS w []
       = (inl (SystemExit 1),
          [Printed "Scanning PipeWire sinks...";
           Ran ["wpctl"; "status"];
           Printed diagnostic])
    /\ diagnostic = missing_sink_message bus sinks
    /\ exit_status (fst (main MIDI_PORT_HINT CC_TO_BUS w [])) = 1
    /\ forallb (fun e => negb (touches_midi e))
               (snd (main MIDI_PORT_HINT CC_TO_BUS w [])) = true
    /\ occurs_in bus diagnostic
    /\ (forall name : string,
          In name (firstn 12 (PyDict.keys sinks)) ->
          occurs_in (PyRepr.repr_str name) diagnostic)
    /\ (forall (name : string) (id : Z),
          In (name, id) (firstn 12 sinks) -> plain_text name = true ->
          occurs_in (quoted name) diagnostic)
    /\ ((forall (name : string) (id : Z),
           In (name, id) (firstn 12 sinks) -> plain_text name = true) ->
        diagnostic = "[!] Can't find sink named '" ++ bus
                     ++ "' in wpctl status. Current sinks include: "
                     ++ shown_list (map fst (firstn 12 sinks)) ++ " ...").
Proof.
  intros Hstatus Hparse Hmissing.
  destruct (resolve_buses_first_missing sinks CC_TO_BUS Hmissing []
              w [Printed "Scanning PipeWire sinks..."; Ran ["wpctl"; "status"]])
    as (found & cc & bus & rest & Hsplit & Hfound & Hmem & Hrun).
  assert (Hmain : main MIDI_PORT_HINT CC_TO_BUS w []
                  = (inl (SystemExit 1),
                     [Printed "Scanning PipeWire sinks...";
                      Ran ["wpctl"; "status"];
                      Printed (missing_sink_message bus sinks)])).
  { unfold main. unfold bind at 1. unfold print, emit at 1.
    unfold bind at 1. unfold get_sink_ids_by_description.
    unfold bind at 1. unfold sh at 1. rewrite Hstatus.
    unfold lift. rewrite Hparse.
    unfold bind at 1. simpl app. rewrite Hrun. reflexivity. }
  assert (Hkeys : firstn 12 (PyDict.keys sinks) = map fst (firstn 12 sinks)).
  { unfold PyDict.keys. apply firstn_map. }
  assert (Hall : forall name : string,
            In name (firstn 12 (PyDict.keys sinks)) ->
            occurs_in (PyRepr.repr_str name) (missing_sink_message bus sinks)).
  { intros name Hname. unfold missing_sink_message.
    apply occurs_in_app_l, occurs_in_app_l, occurs_in_app_l, occurs_in_app_r.
    apply occurs_in_repr_list, in_map, Hname. }
  exists found, cc, bus, rest, (missing_sink_message bus sinks). rewrite Hmain.
  split; [exact Hsplit |]. split; [exact Hfound |].
  split; [rewrite Hsplit; apply in_elt |]. split; [exact Hmem |].
  split; [reflexivity |]. split; [reflexivity |]. split; [reflexivity |].
  split; [reflexivity |]. split; [| split; [exact Hall |]].
  - unfold missing_sink_message.
    apply occurs_in_app_l, occurs_in_app_r, occurs_in_refl.
  - split.
    + intros name id Hin Hplain. rewrite <- (repr_str_plain name Hplain).
      apply Hall. rewrite Hkeys. apply (in_map fst _ _ Hin).
    + intros Hplain. unfold missing_sink_message. rewrite Hkeys.
      rewrite (repr_list_plain (map fst (firstn 12 sinks))); [reflexivity |].
      intros q Hq. apply in_map_iff in Hq. destruct Hq as [[name id] [<- Hin]].
      apply (Hplain name id Hin).
Qed.

End Startup.

(* ================================================================== *)
(** * What a successful match says about the subject *)
(* ================================================================== *)

Section RegexFacts.
Import PyStr Re.

Lemma star_greedy_sound (k : cclass) (kont : cont) :
  forall (s : string) (pos : nat) (caps m : captures),
    star_greedy k pos s caps kont = Some m ->
    exists u s' : string,
      s = u ++ s' /\ all_in k u = true
      /\ kont (pos + String.length u)%nat s' caps = Some m.
Proof.
  induction s as [| c rest IH]; intros pos caps m Hrun; simpl in Hrun.
  - exists EmptyString, EmptyString. simpl. now rewrite Nat.add_0_r.
  - destruct (in_class k c) eqn:Hc.
    + destruct (star_greedy k (S pos) rest caps kont) as [m' |] eqn:Hrec.
      * injection Hrun as ->.
        destruct (IH _ _ _ Hrec) as [u [s' [Hs [Hu Hk]]]].
        exists (String c u), s'. simpl. rewrite Hc, Hu, Hs, Nat.add_succ_r.
        now repeat split.
      * exists EmptyString, (String c rest). simpl. now rewrite Nat.add_0_r.
    + exists EmptyString, (String c rest). simpl. now rewrite Nat.add_0_r.
Qed.

Lemma star_lazy_sound (k : cclass) (kont : cont) :
  forall (s : string) (pos : nat) (caps m : captures),
    star_lazy k pos s caps kont = Some m ->
    exists u s' : string,
      s = u ++ s' /\ all_in k u = true
      /\ kont (pos + String.length u)%nat s' caps = Some m.
Proof.
  induction s as [| c rest IH]; intros pos caps m Hrun; simpl in Hrun.
  - destruct (kont pos EmptyString caps) as [m' |] eqn:Hk; [| discriminate].
    exists EmptyString, EmptyString. simpl. rewrite Nat.add_0_r. now rewrite Hk.
  - destruct (kont pos (String c rest) caps) as [m' |] eqn:Hk.
    + exists EmptyString, (String c rest). simpl. rewrite Nat.add_0_r.
      now rewrite Hk.
    + destruct (in_class k c) eqn:Hc; [| discriminate].
      destruct (IH _ _ _ Hrun) as [u [s' [Hs [Hu Hk']]]].
      exists (String c u), s'. simpl. rewrite Hc, Hu, Hs, Nat.add_succ_r.
      now repeat split.
Qed.

(** The matcher only succeeds along a way the pattern allows. *)
Lemma run_sound (r : regex) :
  forall (pos : nat) (s : string) (caps : captures) (kont : cont) (m : captures),
    run r pos s caps kont = Some m ->
    exists (pos' : nat) (s' : string) (caps' : captures),
      reaches r pos s caps pos' s' caps' /\ kont pos' s' caps' = Some m.
Proof.
  induction r as [| | k | r1 IH1 r2 IH2 | r1 IH1 | k | k | k | n r1 IH1];
    intros pos s caps kont m Hrun; simpl in Hrun.
  - exists pos, s, caps. simpl. now repeat split.
  - destruct (Nat.eqb_spec pos 0) as [-> | Hne]; [| discriminate].
    exists 0%nat, s, caps. simpl. now repeat split.
  - destruct s as [| c rest]; [discriminate |].
    destruct (in_class k c) eqn:Hc; [| discriminate].
    exists (S pos), rest, caps. simpl. split; [| exact Hrun].
    exists c. now repeat split.
  - destruct (IH1 _ _ _ _ _ Hrun) as [p1 [s1 [c1 [H1 Hrun2]]]].
    destruct (IH2 _ _ _ _ _ Hrun2) as [p2 [s2 [c2 [H2 Hk]]]].
    exists p2, s2, c2. split; [| exact Hk].
    simpl. exists p1, s1, c1. now split.
  - destruct (run r1 pos s caps kont) as [m' |] eqn:Hr1.
    + injection Hrun as ->.
      destruct (IH1 _ _ _ _ _ Hr1) as [p1 [s1 [c1 [H1 Hk]]]].
      exists p1, s1, c1. split; [simpl; now left | exact Hk].
    + exists pos, s, caps. split; [simpl; right; now repeat split | exact Hrun].
  - destruct (star_greedy_sound _ _ _ _ _ _ Hrun) as [u [s' [Hs [Hu Hk]]]].
    exists (pos + String.length u)%nat, s', caps. split; [| exact Hk].
    simpl. exists u. now repeat split.
  - destruct s as [| c rest]; [discriminate |].
    destruct (in_class k c) eqn:Hc; [| discriminate].
    destruct (star_greedy_sound _ _ _ _ _ _ Hrun) as [u [s' [Hs [Hu Hk]]]].
    exists (S pos + String.length u)%nat, s', caps. split; [| exact Hk].
    simpl. exists c, u. rewrite Hs, Nat.add_succ_r. now repeat split.
  - destruct s as [| c rest]; [discriminate |].
    destruct (in_class k c) eqn:Hc; [| discriminate].
    destruct (star_lazy_sound _ _ _ _ _ _ Hrun) as [u [s' [Hs [Hu Hk]]]].
    exists (S pos + String.length u)%nat, s', caps. split; [| exact Hk].
    simpl. exists c, u. rewrite Hs, Nat.add_succ_r. now repeat split.
  - destruct (IH1 _ _ _ _ _ Hrun) as [p1 [s1 [c1 [H1 Hk]]]].
    exists p1, s1, ((n, (pos, p1)) :: c1). split; [| exact Hk].
    simpl. exists c1. now split.
Qed.

Lemma length_append (a b : string) :
  String.length (a ++ b) = (String.length a + String.length b)%nat.
Proof. induction a as [| c a IH]; simpl; [reflexivity | now rewrite IH]. Qed.

(** A way through [r] consumes a prefix of what remained, and the
    position advances by its length. *)
Lemma reaches_consumes (r : regex) :
  forall (pos : nat) (s : string) (caps : captures)
         (pos' : nat) (s' : string) (caps' : captures),
    reaches r pos s caps pos' s' caps' ->
    exists u : string, s = u ++ s' /\ pos' = (pos + String.length u)%nat.
Proof.
  induction r as [| | k | r1 IH1 r2 IH2 | r1 IH1 | k | k | k | n r1 IH1];
    intros pos s caps pos' s' caps' H; simpl in H.
  - destruct H as [-> [-> _]]. exists EmptyString. simpl. now rewrite Nat.add_0_r.
  - destruct H as [_ [-> [-> _]]]. exists EmptyString. simpl. now rewrite Nat.add_0_r.
  - destruct H as [c [-> [_ [-> _]]]]. exists (String c EmptyString). simpl.
    now rewrite Nat.add_1_r.
  - destruct H as [p1 [s1 [c1 [H1 H2]]]].
    destruct (IH1 _ _ _ _ _ _ H1) as [u1 [-> ->]].
    destruct (IH2 _ _ _ _ _ _ H2) as [u2 [-> ->]].
    exists (u1 ++ u2). now rewrite append_assoc, length_append, Nat.add_assoc.
  - destruct H as [H | [-> [-> _]]].
    + now apply IH1 in H.
    + exists EmptyString. simpl. now rewrite Nat.add_0_r.
  - destruct H as [u [-> [_ [-> _]]]]. now exists u.
  - destruct H as [c [u [-> [_ [_ [-> _]]]]]]. now exists (String c u).
  - destruct H as [c [u [-> [_ [_ [-> _]]]]]]. now exists (String c u).
  - destruct H as [c0 [H _]]. now apply IH1 in H.
Qed.

Lemma substring_middle (pre d rest : string) :
  String.substring (String.length pre) (String.length d) (pre ++ d ++ rest) = d.
Proof.
  induction pre as [| c pre IH]; simpl.
  - induction d as [| c d IH]; simpl.
    + destruct rest; reflexivity.
    + now rewrite IH.
  - exact IH.
Qed.

Lemma slice_middle (pre d rest : string) :
  slice (pre ++ d ++ rest) (String.length pre) (String.length pre + String.length d) = d.
Proof.
  unfold slice.
  replace (String.length pre + String.length d - String.length pre)%nat
    with (String.length d) by lia.
  apply substring_middle.
Qed.

End RegexFacts.

(* ================================================================== *)
(** * The lines [line_re] matches *)
(* ================================================================== *)

Section LinePattern.
Import PyStr Re.

(** A line that [line_re] matches starts with white space, a marker and
    a run of one or more digits, and group 2 is that run. *)
Lemma line_re_shape (l : string) (m : Match) :
  re_match line_re l = Some m ->
  exists (lead mark d rest : string) (g3 : nat * nat) (c1 : captures),
    l = lead ++ mark ++ d ++ rest
    /\ all_in Space lead = true
    /\ is_marker mark
    /\ d <> EmptyString
    /\ all_in Digit d = true
    /\ subject m = l
    /\ spans m = (3%nat, g3)
                   :: (2%nat, (String.length (lead ++ mark),
                               (String.length (lead ++ mark) + String.length d)%nat))
                   :: c1.
Proof.
  unfold re_match. intros H.
  destruct (run line_re 0 l [] (fun _ _ caps => Some caps)) as [caps |] eqn:Hrun;
    [| discriminate].
  injection H as <-.
  apply run_sound in Hrun. destruct Hrun as [pos' [s' [caps' [Hreach Hk]]]].
  injection Hk as ->.
  unfold line_re in Hreach. cbn [reaches lit] in Hreach.
  destruct Hreach as (p1 & s1 & c1 & (_ & Hp1 & Hs1 & Hc1) & Hrest).
  destruct Hrest as (p2 & s2 & c2 & (lead & Hs1' & Hlead & Hp2 & Hc2) & Hrest).
  destruct Hrest as (p3 & s3 & c3 & Hopt & Hrest).
  destruct Hrest
    as (p4 & s4 & c4 & (c0 & (dc & du & Hs3 & Hdc & Hdu & Hp4 & Hc0) & Hc4) & Hrest).
  destruct Hrest
    as (p5 & s5 & c5 & (? & _ & _ & _ & Hc5)
        & p6 & s6 & c6 & (? & ? & _ & _ & _ & _ & Hc6)
        & p7 & s7 & c7 & (c0' & (? & ? & _ & _ & _ & _ & Hc0') & Hc7)
        & p8 & s8 & c8 & (? & ? & _ & _ & _ & _ & Hc8)
        & p9 & s9 & c9 & (? & _ & _ & _ & Hc9)
        & p10 & s10 & c10 & (? & _ & _ & _ & Hc10)
        & p11 & s11 & c11 & (? & _ & _ & _ & Hc11)
        & p12 & s12 & c12 & (? & _ & _ & _ & Hc12)
        & (? & _ & _ & _ & Hcaps)).
  assert (Hspans : caps = (3%nat, (p6, p7)) :: (2%nat, (p3, p4)) :: c3) by congruence.
  assert (Hshape : exists mark : string,
             is_marker mark /\ s2 = mark ++ s3
             /\ p3 = (p2 + String.length mark)%nat).
  { destruct Hopt as [(c0'' & (q & sq & cq & Hstar & (u & Hsq & Hu & Hq & _)) & _)
                     | (Hp3 & Hs3' & _)].
    - destruct Hstar as [(c & Hs2 & Hc & Hq' & _) | (Hq' & Hsq' & _)].
      + apply Ascii.eqb_eq in Hc. subst c.
        exists (String "*" u). split; [exists u; split; [exact Hu | now right] |].
        split; [simpl; congruence |]. simpl. lia.
      + exists u. split; [exists u; split; [exact Hu | now left] |].
        split; [congruence | lia].
    - exists EmptyString. split; [exists EmptyString; split; [reflexivity | now left] |].
      split; [simpl; congruence | simpl; lia]. }
  destruct Hshape as (mark & Hmark & Hs2 & Hp3).
  exists lead, mark, (String dc du), s4, (p6, p7), c3.
  assert (Hlen : String.length (lead ++ mark) = p3).
  { rewrite length_append. lia. }
  repeat split.
  - rewrite <- Hs1, Hs1', Hs2, Hs3. reflexivity.
  - exact Hlead.
  - exact Hmark.
  - discriminate.
  - simpl. simpl in Hdc. now rewrite Hdc, Hdu.
  - simpl. rewrite Hspans, Hlen, Hp4. reflexivity.
Qed.

(** Groups 2 and 3 of a match: both took part, and group 2 is a run of
    one or more decimal digits. *)
Lemma line_re_groups (l : string) (m : Match) :
  re_match line_re l = Some m ->
  exists d n : string,
    group m 2 = Some d /\ group m 3 = Some n
    /\ d <> EmptyString /\ all_in Digit d = true.
Proof.
  intros Hm.
  destruct (line_re_shape l m Hm)
    as (lead & mark & d & rest & [i j] & c1 & Hl & _ & _ & Hne & Hd & Hsub & Hspans).
  exists d, (slice l i j). unfold group. rewrite Hspans, Hsub. simpl.
  repeat split; try assumption.
  rewrite Hl at 1. rewrite <- append_assoc. now rewrite slice_middle.
Qed.

End LinePattern.

(* ================================================================== *)
(** * Sink resolver *)
(* ================================================================== *)

Section SinkResolver.
Import PyStr Re.

(** ** Characters *)

Lemma digit_is_visible (c : ascii) :
  isdecimal c = true -> isspace c = false /\ c <> "S"%char.
Proof.
  destruct c as [[] [] [] [] [] [] [] []]; intros H; vm_compute in H;
    try discriminate; (split; [reflexivity | discriminate]).
Qed.

Lemma lstrip_spaces (u s : string) :
  all_in Space u = true -> lstrip (u ++ s) = lstrip s.
Proof.
  induction u as [| c u IH]; simpl; [reflexivity |].
  intros H. apply andb_true_iff in H. destruct H as [Hc Hu].
  rewrite Hc. now apply IH.
Qed.

Lemma rstrip_head (c : ascii) (s : string) :
  rstrip (String c s) = EmptyString \/ exists r : string, rstrip (String c s) = String c r.
Proof.
  simpl. destruct (rstrip s) as [| c' r'].
  - destruct (isspace c); [now left | right; now exists EmptyString].
  - right. now exists (String c' r').
Qed.

(** The first character of a stripped line is the first one of the line
    that is not white space. *)
Lemma strip_head (u s : string) (c x : ascii) (r : string) :
  all_in Space u = true -> isspace c = false ->
  strip (u ++ String c s) = String x r -> x = c.
Proof.
  intros Hu Hc. unfold strip. rewrite (lstrip_spaces u _ Hu). simpl lstrip.
  rewrite Hc. intros H.
  destruct (rstrip_head c s) as [He | [r' Hr]]; congruence.
Qed.

Lemma sinks_header_head (line : string) :
  is_sinks_header line = true -> exists r : string, strip line = String "S" r.
Proof.
  unfold is_sinks_header, startswith. intros H.
  apply prefix_iff in H. destruct H as [b Hb]. rewrite Hb. simpl. now eexists.
Qed.

(** A sinks header is not a sources header. *)
Lemma sinks_header_not_sources (line : string) :
  is_sinks_header line = true -> is_sources_header line = false.
Proof.
  unfold is_sinks_header, is_sources_header, startswith. intros H.
  apply prefix_iff in H. destruct H as [b ->]. reflexivity.
Qed.

(** The pattern matches no sinks header. *)
Lemma sinks_header_no_match (line : string) :
  is_sinks_header line = true -> re_match line_re line = None.
Proof.
  intros Hh. destruct (re_match line_re line) as [m |] eqn:Hm; [| reflexivity].
  exfalso.
  destruct (sinks_header_head line Hh) as [r Hr].
  destruct (line_re_shape line m Hm)
    as (lead & mark & d & rest & g3 & c1 & Hl & Hlead & Hmark & Hne & Hd & _).
  destruct d as [| dc du]; [contradiction |].
  simpl in Hd. apply andb_true_iff in Hd. destruct Hd as [Hdc _].
  destruct (digit_is_visible dc Hdc) as [Hvis HS].
  destruct Hmark as (u & Hu & [-> | ->]).
  - rewrite Hl, <- append_assoc in Hr.
    apply strip_head in Hr; try assumption.
    + now subst dc.
    + clear -Hlead Hu. induction lead as [| c lead IH]; simpl; [exact Hu |].
      simpl in Hlead. apply andb_true_iff in Hlead. destruct Hlead as [-> Hlead].
      now apply IH.
  - rewrite Hl in Hr. simpl in Hr.
    apply strip_head in Hr; [discriminate | exact Hlead | reflexivity].
Qed.

(** ** [int] on group 2 *)

Lemma all_decimal_all_in (d : string) : PyInt.all_decimal d = all_in Digit d.
Proof. induction d as [| c d IH]; simpl; [reflexivity | now rewrite IH]. Qed.

Lemma int_of_digits (d : string) :
  d <> EmptyString -> all_in Digit d = true ->
  (String.length d <= PyInt.int_max_str_digits)%nat ->
  PyInt.int_of_str d = inr (PyInt.decimal_value 0 d).
Proof.
  intros Hne Hd Hlen. unfold PyInt.int_of_str.
  destruct d as [| c d]; [contradiction |].
  rewrite all_decimal_all_in, Hd.
  apply Nat.ltb_ge in Hlen. now rewrite Hlen.
Qed.

(** ** Entries *)

Lemma entries_of_cons (line : string) (lines : list string) :
  entries_of (line :: lines)
  = (match entry_of_line line with Some e => [e] | None => [] end
       ++ entries_of lines)%list.
Proof. reflexivity. Qed.

Lemma entry_of_line_none (line : string) :
  re_match line_re line = None -> entry_of_line line = None.
Proof. unfold entry_of_line. now intros ->. Qed.

Lemma entry_of_line_match (line : string) (m : Match) :
  re_match line_re line = Some m ->
  exists d n : string,
    group m 2 = Some d /\ group m 3 = Some n
    /\ entry_of_line line = Some (strip n, d)
    /\ d <> EmptyString /\ all_in Digit d = true.
Proof.
  intros Hm. destruct (line_re_groups line m Hm) as (d & n & Hg2 & Hg3 & Hne & Hd).
  exists d, n. unfold entry_of_line. rewrite Hm, Hg2, Hg3. now repeat split.
Qed.

Lemma int_of_too_many_digits (d : string) :
  all_in Digit d = true ->
  (PyInt.int_max_str_digits < String.length d)%nat ->
  PyInt.int_of_str d = inl (PyInt.exceeds_limit d).
Proof.
  intros Hd Hlen. unfold PyInt.int_of_str.
  destruct d as [| c d]; [inversion Hlen |].
  rewrite all_decimal_all_in, Hd.
  apply Nat.ltb_lt in Hlen. now rewrite Hlen.
Qed.

(** ** The loop *)

(** Outside the sinks section the loop only looks for the sinks header. *)
Lemma sink_lines_loop_enters (lines : list string) (out : PyDict.dict string Z) :
  sink_lines_loop lines false out
  = sink_lines_loop (after_first is_sinks_header lines) true out.
Proof.
  induction lines as [| line rest IH]; [reflexivity |].
  simpl. fold (is_sinks_header line).
  destruct (is_sinks_header line); [reflexivity | exact IH].
Qed.

Lemma sink_lines_loop_skips (before rest : list string) (out : PyDict.dict string Z) :
  (forall line : string, In line before -> is_sinks_header line = false) ->
  sink_lines_loop (before ++ rest)%list false out = sink_lines_loop rest false out.
Proof.
  induction before as [| line before IH]; intros Hno; [reflexivity |].
  simpl. fold (is_sinks_header line).
  rewrite (Hno line (or_introl eq_refl)). simpl.
  apply IH. intros l Hl. apply Hno. now right.
Qed.

(** Inside the sinks section each matching line writes its entry, up to
    the sources header. *)
Lemma sink_lines_loop_section (lines : list string) :
  forall out : PyDict.dict string Z,
    (forall n d : string,
        In (n, d) (entries_of (up_to_first is_sources_header lines)) ->
        (String.length d <= PyInt.int_max_str_digits)%nat) ->
    exists out' : PyDict.dict string Z,
      sink_lines_loop lines true out = inr out'
      /\ forall name : string,
           PyDict.get String.eqb name out'
           = match last_named name (entries_of (up_to_first is_sources_header lines)) with
             | Some d => Some (PyInt.decimal_value 0 d)
             | None => PyDict.get String.eqb name out
             end.
Proof.
  induction lines as [| line rest IH]; intros out Hlen.
  - exists out. split; reflexivity.
  - simpl sink_lines_loop. fold (is_sinks_header line) (is_sources_header line).
    simpl up_to_first in Hlen |- *.
    destruct (is_sinks_header line) eqn:Hh.
    + rewrite (sinks_header_not_sources line Hh) in Hlen |- *.
      rewrite entries_of_cons in Hlen |- *.
      rewrite (entry_of_line_none line (sinks_header_no_match line Hh)) in Hlen |- *.
      apply IH. exact Hlen.
    + destruct (is_sources_header line) eqn:Hs; simpl andb; simpl negb; cbv iota.
      * exists out. split; reflexivity.
      * rewrite entries_of_cons in Hlen |- *.
        destruct (re_match line_re line) as [m |] eqn:Hm.
        -- destruct (entry_of_line_match line m Hm)
             as (d & n & Hg2 & Hg3 & Hentry & Hne & Hd).
           rewrite Hentry in Hlen |- *. rewrite Hg2, Hg3.
           simpl int_of_group.
           rewrite (int_of_digits d Hne Hd (Hlen _ _ (or_introl eq_refl))).
           simpl strip_group. cbv iota.
           destruct (IH (PyDict.set String.eqb (strip n) (PyInt.decimal_value 0 d) out))
             as (out' & Hrun & Hget).
           { intros n' d' Hin. apply (Hlen n' d'). now right. }
           exists out'. split; [exact Hrun |].
           intros name. rewrite Hget. simpl app. simpl last_named.
           destruct (last_named name _); [reflexivity |].
           rewrite (get_set String.eqb String.eqb_spec).
           destruct (String.eqb name (strip n)); reflexivity.
        -- rewrite (entry_of_line_none line Hm) in Hlen |- *.
           apply IH. exact Hlen.
Qed.

(** ** The last entry of a name *)

Lemma last_named_app (name : string) (xs ys : list (string * string)) :
  last_named name (xs ++ ys)%list
  = match last_named name ys with
    | Some d => Some d
    | None => last_named name xs
    end.
Proof.
  induction xs as [| [n d] xs IH]; simpl.
  - destruct (last_named name ys); reflexivity.
  - rewrite IH. destruct (last_named name ys); reflexivity.
Qed.

Lemma last_named_absent (name : string) (xs : list (string * string)) :
  (forall d : string, ~ In (name, d) xs) -> last_named name xs = None.
Proof.
  induction xs as [| [n d] xs IH]; intros Hno; simpl; [reflexivity |].
  rewrite IH by (intros d' Hd'; apply (Hno d'); now right).
  destruct (String.eqb_spec name n) as [-> | Hne]; [| reflexivity].
  exfalso. apply (Hno d). now left.
Qed.

(** ** One step of the loop *)

Lemma sources_header_not_sinks (line : string) :
  is_sources_header line = true -> is_sinks_header line = false.
Proof.
  intros Hs. destruct (is_sinks_header line) eqn:Hh; [| reflexivity].
  apply sinks_header_not_sources in Hh. congruence.
Qed.

Lemma sink_lines_loop_header (line : string) (rest : list string)
      (sinks_section : bool) (out : PyDict.dict string Z) :
  is_sinks_header line = true ->
  sink_lines_loop (line :: rest) sinks_section out = sink_lines_loop rest true out.
Proof. intros Hh. simpl. fold (is_sinks_header line). now rewrite Hh. Qed.

Lemma sink_lines_loop_sources (line : string) (rest : list string)
      (out : PyDict.dict string Z) :
  is_sources_header line = true ->
  sink_lines_loop (line :: rest) true out = inr out.
Proof.
  intros Hs. simpl. fold (is_sinks_header line) (is_sources_header line).
  now rewrite (sources_header_not_sinks line Hs), Hs.
Qed.

Lemma sink_lines_loop_entry (line name digits : string) (rest : list string)
      (out : PyDict.dict string Z) :
  is_sinks_header line = false ->
  is_sources_header line = false ->
  entry_of_line line = Some (name, digits) ->
  (String.length digits <= PyInt.int_max_str_digits)%nat ->
  sink_lines_loop (line :: rest) true out
  = sink_lines_loop rest true
      (PyDict.set String.eqb name (PyInt.decimal_value 0 digits) out).
Proof.
  intros Hh Hs Hentry Hlen. simpl sink_lines_loop.
  fold (is_sinks_header line) (is_sources_header line). rewrite Hh, Hs.
  simpl andb. simpl negb. cbv iota.
  destruct (re_match line_re line) as [m |] eqn:Hm.
  - destruct (entry_of_line_match line m Hm) as (d & n & Hg2 & Hg3 & He & Hne & Hd).
    rewrite He in Hentry. injection Hentry as <- <-.
    rewrite Hg2, Hg3. simpl int_of_group.
    now rewrite (int_of_digits d Hne Hd Hlen).
  - rewrite (entry_of_line_none line Hm) in Hentry. discriminate.
Qed.

(** ** The claims *)

(** C2: on a status text whose lines are, after lines without a sinks
    header, a sinks header, the two lines [   97. VM-GAME [vol: 1.00]] and
    [*  103. Astro A50 Game [vol: 1.00]], a sources header and any lines
    at all after it, the resolver returns exactly VM-GAME -> 97 and
    Astro A50 Game -> 103: nothing after the sources header adds an
    entry. *)
Theorem sink_table_parsing (w : World) (t : list Event) (txt : string)
        (before after : list string) (hdr src : string) :
  run_command w ["wpctl"; "status"] = inr txt ->
  splitlines txt
  = (before ++ [hdr; "   97. VM-GAME [vol: 1.00]";
                "*  103. Astro A50 Game [vol: 1.00]"; src] ++ after)%list ->
  (forall line : string, In line before -> is_sinks_header line = false) ->
  is_sinks_header hdr = true ->
  is_sources_header src = true ->
  get_sink_ids_by_description w t
  = (inr [("VM-GAME", 97); ("Astro A50 Game", 103)],
     (t ++ [Ran ["wpctl"; "status"]])%list).
Proof.
  intros Hstatus Hlines Hbefore Hhdr Hsrc.
  unfold get_sink_ids_by_description, bind, sh, lift. rewrite Hstatus.
  unfold parse_sinks. rewrite Hlines.
  rewrite (sink_lines_loop_skips before _ [] Hbefore).
  simpl app. rewrite (sink_lines_loop_header hdr _ false [] Hhdr).
  rewrite (sink_lines_loop_entry _ "VM-GAME" "97");
    [| vm_compute; reflexivity ..| apply Nat.leb_le; vm_compute; reflexivity].
  rewrite (sink_lines_loop_entry _ "Astro A50 Game" "103");
    [| vm_compute; reflexivity ..| apply Nat.leb_le; vm_compute; reflexivity].
  rewrite (sink_lines_loop_sources src after _ Hsrc).
  reflexivity.
Qed.

(** C9: when no line of the status text is a sinks header, the resolver
    returns the empty mapping and raises nothing; and lines met before
    any sinks header, sources headers among them, neither end the scan
    nor add an entry: the scan goes on with the lines after them. *)
Theorem no_sinks_header_empty (w : World) (t : list Event) (txt : string) :
  run_command w ["wpctl"; "status"] = inr txt ->
  (forall line : string,
      In line (splitlines txt) -> startswith (strip line) "Sinks:" = false) ->
  get_sink_ids_by_description w t = (inr [], (t ++ [Ran ["wpctl"; "status"]])%list)
  /\ forall (before rest : list string) (out : PyDict.dict string Z),
       (forall line : string,
           In line before -> startswith (strip line) "Sinks:" = false) ->
       sink_lines_loop (before ++ rest)%list false out
       = sink_lines_loop rest false out.
Proof.
  intros Hstatus Hno. split.
  - unfold get_sink_ids_by_description, bind, sh, lift. rewrite Hstatus.
    unfold parse_sinks.
    rewrite <- (app_nil_r (splitlines txt)).
    now rewrite (sink_lines_loop_skips (splitlines txt) [] [] Hno).
  - intros before rest out Hbefore. now apply sink_lines_loop_skips.
Qed.

(** C7: when every identifier in the sinks section has at most the 4300
    digits [int] accepts, the resolver returns a mapping in which each
    name has the identifier of the last matching line of the section
    that carries it; so of two matching lines with the same name, the
    later one decides, unless a still later one carries the name too. *)
Theorem sink_resolver_last_wins (txt : string) :
  (forall n d : string,
      In (n, d) (section_entries (splitlines txt)) ->
      (String.length d <= PyInt.int_max_str_digits)%nat) ->
  exists out : PyDict.dict string Z,
    parse_sinks txt = inr out
    /\ (forall name : string,
          PyDict.get String.eqb name out
          = option_map (PyInt.decimal_value 0)
                       (last_named name (section_entries (splitlines txt))))
    /\ (forall (name d1 d2 : string) (first between later : list (string * string)),
          section_entries (splitlines txt)
          = (first ++ (name, d1) :: between ++ (name, d2) :: later)%list ->
          (forall d : string, ~ In (name, d) later) ->
          PyDict.get String.eqb name out = Some (PyInt.decimal_value 0 d2)).
Proof.
  intros Hlen. unfold parse_sinks. rewrite sink_lines_loop_enters.
  destruct (sink_lines_loop_section _ [] Hlen) as (out & Hrun & Hget).
  exists out. split; [exact Hrun |].
  assert (Hall : forall name : string,
             PyDict.get String.eqb name out
             = option_map (PyInt.decimal_value 0)
                          (last_named name (section_entries (splitlines txt)))).
  { intros name. rewrite Hget. unfold section_entries, sinks_section.
    destruct (last_named name _); reflexivity. }
  split; [exact Hall |].
  intros name d1 d2 first between later Hsplit Hlater.
  rewrite Hall, Hsplit.
  rewrite (last_named_app name first). simpl last_named.
  rewrite (last_named_app name between). simpl last_named.
  rewrite (last_named_absent name later Hlater), String.eqb_refl.
  reflexivity.
Qed.

End SinkResolver.

(* ================================================================== *)
(** * Concrete runs *)
(* ================================================================== *)

Section Examples.
Import PyStr.
Local Open Scope py_scope.

Lemma sink_table_parsing_witness :
  get_sink_ids_by_description (world_of status_full [] []) []
  = (inr [("VM-GAME", 97); ("Astro A50 Game", 103)], [Ran ["wpctl"; "status"]]).
Proof.
  apply (sink_table_parsing (world_of status_full [] []) [] status_full
           ["Audio"; " Sources:"; "   31. Monitor [vol: 1.00]"]
           ["   55. Microphone [vol: 0.80]"] " Sinks:" " Sources:").
  - reflexivity.
  - vm_compute. reflexivity.
  - intros line Hin. simpl in Hin.
    destruct Hin as [<- | [<- | [<- | []]]]; vm_compute; reflexivity.
  - vm_compute. reflexivity.
  - vm_compute. reflexivity.
Defined.

Lemma no_sinks_header_empty_witness :
  get_sink_ids_by_description (world_of status_no_sinks [] []) []
  = (inr [], [Ran ["wpctl"; "status"]]).
Proof.
  apply (no_sinks_header_empty (world_of status_no_sinks [] []) [] status_no_sinks).
  - reflexivity.
  - intros line Hin. vm_compute in Hin.
    destruct Hin as [<- | [<- | [<- | []]]]; vm_compute; reflexivity.
Defined.

Lemma sink_resolver_last_wins_witness :
  exists out : PyDict.dict string Z,
    parse_sinks status_repeated = inr out
    /\ PyDict.get String.eqb "VM-GAME" out = Some 97.
Proof.
  destruct (sink_resolver_last_wins status_repeated) as (out & Hrun & Hget & _).
  - intros n d Hin. vm_compute in Hin.
    destruct Hin as [[= <- <-] | [[= <- <-] | [[= <- <-] | []]]];
      apply Nat.leb_le; vm_compute; reflexivity.
  - exists out. split; [exact Hrun |]. rewrite Hget. vm_compute. reflexivity.
Defined.

Lemma set_volume_percentage_witness :
  snd (set_volume 97 100 (world_of status_three_buses ["LPD8 MIDI 1"] []) [])
  = [Ran ["wpctl"; "set-volume"; "97"; "79%"]].
Proof.
  destruct (proj1 set_volume_percentage 100) as (p & Hp & Hnear & _ & Hrun); [lia |].
  rewrite Hrun.
  assert (Hp79 : p = 79) by lia.
  rewrite Hp79. reflexivity.
Defined.


Lemma main_fails_fast_witness :
  main default_MIDI_PORT_HINT default_CC_TO_BUS
       (world_of status_full ["LPD8 MIDI 1"] []) []
  = (inl (SystemExit 1),
     [Printed "Scanning PipeWire sinks...";
      Ran ["wpctl"; "status"];
      Printed "[!] Can't find sink named 'VM-CHAT' in wpctl status. Current sinks include: ['VM-GAME', 'Astro A50 Game'] ..."])
  /\ exit_status (fst (main default_MIDI_PORT_HINT default_CC_TO_BUS
                         (world_of status_full ["LPD8 MIDI 1"] []) [])) = 1.
Proof.
  destruct (main_fails_fast default_MIDI_PORT_HINT default_CC_TO_BUS
              (world_of status_full ["LPD8 MIDI 1"] []) status_full
              [("VM-GAME", 97); ("Astro A50 Game", 103)])
    as (found & cc & bus & rest & diagnostic & Hsplit & Hfound & _ & Hmem & Hmain
        & _ & Hexit & _ & _ & _ & _ & Hdiagnostic).
  - reflexivity.
  - vm_compute. reflexivity.
  - exists 2, "VM-CHAT". split; [right; left; reflexivity | reflexivity].
  - split; [| exact Hexit].
    rewrite Hmain, Hdiagnostic.
    + destruct found as [| [c1 b1] [| [c2 b2] [| [c3 b3] found]]].
      * injection Hsplit as _ <- _. vm_compute in Hmem. discriminate Hmem.
      * injection Hsplit as _ _ _ <- _. reflexivity.
      * injection Hsplit as _ _ <- <- _.
        pose proof (Hfound 2 "VM-CHAT" (or_intror (or_introl eq_refl))) as Hchat.
        vm_compute in Hchat. discriminate Hchat.
      * exfalso. destruct found; discriminate Hsplit.
    + intros name id [[= <- <-] | [[= <- <-] | []]]; reflexivity.
Defined.

Lemma resolvers_keep_no_state_witness :
  (exists s' : Interp,
      calls 2 get_sink_ids_by_description_store
            (world_of status_repeated ["Midi Through Port-0"; "LPD8 MIDI 1"] []) used_interp
      = (inr [1%nat; 2%nat], s')
      /\ objects s' = [[("VM-GAME", 5); ("Old", 1)];
                       [("VM-GAME", 97); ("VM-CHAT", 41)];
                       [("VM-GAME", 97); ("VM-CHAT", 41)]]
      /\ global_MIDI_PORT_HINT s' = "LPD8")
  /\ (exists s' : Interp,
        calls 2 find_midi_port_store
              (world_of status_repeated ["Midi Through Port-0"; "LPD8 MIDI 1"] []) used_interp
        = (inr ["LPD8 MIDI 1"; "LPD8 MIDI 1"], s')
        /\ objects s' = [[("VM-GAME", 5); ("Old", 1)]]
        /\ global_MIDI_PORT_HINT s' = "LPD8").
Proof.
  exact (resolvers_keep_no_state
           (world_of status_repeated ["Midi Through Port-0"; "LPD8 MIDI 1"] [])
           used_interp 2).
Defined.

Lemma event_loop_volume_command_witness :
  event_loop [(1, 97); (2, 98); (3, 99)] [control_change 1 100]
             (world_of status_three_buses ["LPD8 MIDI 1"] []) []
  = (inr tt, [Received (control_change 1 100);
              Ran ["wpctl"; "set-volume"; "97"; "79%"]]).
Proof.
  rewrite (event_loop_volume_command [(1, 97); (2, 98); (3, 99)] []
             (world_of status_three_buses ["LPD8 MIDI 1"] []) [] eq_refl).
  reflexivity.
Defined.

Lemma event_loop_ignores_witness :
  snd (on_message [(1, 97); (2, 98); (3, 99)] (control_change 5 64)
                  (world_of status_three_buses ["LPD8 MIDI 1"] []) []) = []
  /\ snd (on_message [(1, 97); (2, 98); (3, 99)] note_on
                     (world_of status_three_buses ["LPD8 MIDI 1"] []) []) = [].
Proof.
  split.
  - apply (event_loop_ignores [(1, 97); (2, 98); (3, 99)] (control_change 5 64) []
             (world_of status_three_buses ["LPD8 MIDI 1"] []) []).
    right. exists 5. split; reflexivity.
  - apply (event_loop_ignores [(1, 97); (2, 98); (3, 99)] note_on []
             (world_of status_three_buses ["LPD8 MIDI 1"] []) []).
    left. discriminate.
Defined.

(** A whole session with the settings of the source: three messages
    arrive, two of them move a volume. *)
Example main_session :
  main default_MIDI_PORT_HINT default_CC_TO_BUS
       (world_of status_three_buses ["Midi Through Port-0"; "LPD8 MIDI 1"]
                 [control_change 1 100; control_change 5 3; note_on;
                  control_change 3 127]) []
  = (inr tt,
     [Printed "Scanning PipeWire sinks...";
      Ran ["wpctl"; "status"];
      ListedInputs;
      Printed "Listening on MIDI: LPD8 MIDI 1";
      Printed "Mapping: {1: ('VM-GAME', 97), 2: ('VM-CHAT', 98), 3: ('VM-MUSIC', 99)}";
      Printed "Move knobs now... (Ctrl+C to exit)";
      OpenedInput "LPD8 MIDI 1";
      Received (control_change 1 100);
      Ran ["wpctl"; "set-volume"; "97"; "79%"];
      Received (control_change 5 3);
      Received note_on;
      Received (control_change 3 127);
      Ran ["wpctl"; "set-volume"; "99"; "100%"];
      ClosedInput "LPD8 MIDI 1"]).
Proof. vm_compute. reflexivity. Qed.

(** The same settings when no input is an LPD8. *)
Example main_no_port :
  main default_MIDI_PORT_HINT default_CC_TO_BUS
       (world_of status_three_buses ["Midi Through Port-0"] []) []
  = (inl (RuntimeError
            "Could not find MIDI input containing 'LPD8'. Ports: ['Midi Through Port-0']"),
     [Printed "Scanning PipeWire sinks...";
      Ran ["wpctl"; "status"];
      ListedInputs]).
Proof. vm_compute. reflexivity. Qed.

End Examples.

(* ================================================================== *)
(** * Event loop: whole runs *)
(* ================================================================== *)

Section EventLoopRuns.
Local Open Scope py_scope.

(** The loop over two batches of messages is the loop over the first,
    then over the second unless the first ended in an exception: after
    a failure no further message is received. *)
Theorem event_loop_app (bus_ids : PyDict.dict Z Z) (ms1 ms2 : list Message)
        (w : World) (t : list Event) :
  event_loop bus_ids (ms1 ++ ms2)%list w t
  = match event_loop bus_ids ms1 w t with
    | (inl e, t') => (inl e, t')
    | (inr _, t') => event_loop bus_ids ms2 w t'
    end.
Proof.
  revert t. induction ms1 as [| m ms1 IH]; intros t; [reflexivity |].
  change (event_loop bus_ids ((m :: ms1) ++ ms2)%list)
    with (emit (Received m) ;;; on_message bus_ids m ;;;
          event_loop bus_ids (ms1 ++ ms2)%list).
  change (event_loop bus_ids (m :: ms1))
    with (emit (Received m) ;;; on_message bus_ids m ;;; event_loop bus_ids ms1).
  unfold bind, emit.
  destruct (on_message bus_ids m w (t ++ [Received m])%list) as [[e | []] t'].
  - reflexivity.
  - apply IH.
Qed.

(** A control change whose controller is mapped and whose value is in
    [0,127] makes the loop run one command, for the mapped node at the
    nearest percentage; the loop goes on when the command succeeds and
    ends with its exception when it fails. *)
Theorem event_loop_mapped (bus_ids : PyDict.dict Z Z) (cc val node : Z)
        (rest : list Message) (w : World) (t : list Event) :
  PyDict.get Z.eqb cc bus_ids = Some node ->
  0 <= val <= 127 ->
  event_loop bus_ids (control_change cc val :: rest) w t
  = match run_command w (set_volume_command node (nearest_percent val)) with
    | inl e =>
        (inl e, (t ++ [Received (control_change cc val)]
                   ++ [Ran (set_volume_command node (nearest_percent val))])%list)
    | inr _ =>
        event_loop bus_ids rest w
          (t ++ [Received (control_change cc val)]
             ++ [Ran (set_volume_command node (nearest_percent val))])%list
    end.
Proof.
  intros Hget Hval.
  destruct (percentage_exact val Hval) as [Hp Hn]. rewrite Hn in Hp.
  change (event_loop bus_ids (control_change cc val :: rest))
    with (emit (Received (control_change cc val)) ;;;
          on_message bus_ids (control_change cc val) ;;;
          event_loop bus_ids rest).
  unfold bind at 1. unfold emit at 1. unfold bind at 1.
  rewrite (on_message_mapped bus_ids cc val node _ w _ Hget Hp), <- app_assoc.
  destruct (run_command w _); reflexivity.
Qed.

Lemma event_loop_mapped_witness :
  event_loop [(1, 97); (2, 98)] [control_change 2 127]
             (world_of status_three_buses [] []) []
  = (inr tt, [Received (control_change 2 127);
              Ran ["wpctl"; "set-volume"; "98"; "100%"]]).
Proof.
  rewrite (event_loop_mapped [(1, 97); (2, 98)] 2 127 98 []
             (world_of status_three_buses [] []) [] eq_refl);
    [reflexivity | lia].
Defined.

(** What one valid message adds to the trace when its command, if it
    calls for one, succeeds. *)
Lemma on_message_valid (bus_ids : PyDict.dict Z Z) (msg : Message)
      (w : World) (t : list Event) :
  valid_message msg ->
  (forall cmd : list string, exists out : string, run_command w cmd = inr out) ->
  on_message bus_ids msg w t = (inr tt, (t ++ command_for bus_ids msg)%list).
Proof.
  intros Hvalid Hok. unfold command_for.
  destruct (String.eqb_spec (type msg) "control_change") as [Heq | Hne].
  - destruct (Hvalid Heq) as (cc & val & Hcc & Hval & Hrange).
    rewrite Hcc, Hval.
    destruct (PyDict.get Z.eqb cc bus_ids) as [node |] eqn:Hget.
    + destruct (percentage_exact val Hrange) as [Hp Hn]. rewrite Hn in Hp.
      assert (Hmsg : msg = control_change cc val).
      { destruct msg as [ty c v]. simpl in *. now subst. }
      rewrite Hmsg, (on_message_mapped bus_ids cc val node _ w t Hget Hp).
      destruct (Hok (set_volume_command node (nearest_percent val))) as [out ->].
      reflexivity.
    + unfold on_message. rewrite Heq, Hcc, Hval. simpl.
      unfold bind at 1. simpl. unfold bind at 1. simpl.
      unfold PyDict.mem. rewrite Hget. now rewrite app_nil_r.
  - unfold on_message. apply String.eqb_neq in Hne. rewrite Hne.
    unfold ret. now rewrite app_nil_r.
Qed.

(** When every command succeeds, the loop takes every message in order
    and runs exactly the commands the mapped control changes call for,
    each right after its message; it returns normally. *)
Theorem event_loop_trace (bus_ids : PyDict.dict Z Z) (msgs : list Message)
        (w : World) (t : list Event) :
  Forall valid_message msgs ->
  (forall cmd : list string, exists out : string, run_command w cmd = inr out) ->
  event_loop bus_ids msgs w t
  = (inr tt,
     (t ++ flat_map (fun msg => Received msg :: command_for bus_ids msg) msgs)%list).
Proof.
  intros Hvalid Hok. revert t.
  induction Hvalid as [| m msgs Hm _ IH]; intros t.
  - simpl. unfold ret. now rewrite app_nil_r.
  - change (event_loop bus_ids (m :: msgs))
      with (emit (Received m) ;;; on_message bus_ids m ;;; event_loop bus_ids msgs).
    unfold bind at 1. unfold emit at 1. unfold bind at 1.
    rewrite (on_message_valid bus_ids m w _ Hm Hok), IH.
    simpl flat_map. now rewrite <- !app_assoc.
Qed.

Lemma event_loop_trace_witness :
  event_loop [(1, 97); (2, 98)] [control_change 2 0; note_on; control_change 9 5]
             (world_of status_three_buses [] []) []
  = (inr tt, [Received (control_change 2 0);
              Ran ["wpctl"; "set-volume"; "98"; "0%"];
              Received note_on;
              Received (control_change 9 5)]).
Proof.
  rewrite (event_loop_trace [(1, 97); (2, 98)]
             [control_change 2 0; note_on; control_change 9 5]
             (world_of status_three_buses [] []) []).
  - reflexivity.
  - repeat constructor.
    + intros _. exists 2, 0. repeat split; lia.
    + intros H. discriminate H.
    + intros _. exists 9, 5. repeat split; lia.
  - intros cmd. simpl.
    destruct (list_eq_dec string_dec cmd ["wpctl"; "status"]); eexists; reflexivity.
Defined.

End EventLoopRuns.

(* ================================================================== *)
(** * Startup: the table and the running phase *)
(* ================================================================== *)

Section DictOrder.
Context {K V : Type}.
Variable eqb : K -> K -> bool.
Hypothesis eqb_spec : forall x y : K, reflect (x = y) (eqb x y).

Lemma get_none_iff (k : K) (d : PyDict.dict K V) :
  PyDict.get eqb k d = None <-> ~ In k (PyDict.keys d).
Proof.
  induction d as [| [k0 v0] d IH]; simpl.
  - split; [intros _ [] | reflexivity].
  - destruct (eqb_spec k k0) as [-> | Hne].
    + split; [discriminate | intros H; exfalso; apply H; now left].
    + rewrite IH. split.
      * intros H [Heq | Hin]; [congruence | contradiction].
      * intros H Hin. apply H. now right.
Qed.

(** Writing a key that is not there appends it. *)
Lemma set_fresh (k : K) (v : V) (d : PyDict.dict K V) :
  ~ In k (PyDict.keys d) -> PyDict.set eqb k v d = (d ++ [(k, v)])%list.
Proof.
  induction d as [| [k0 v0] d IH]; simpl; intros Hfresh; [reflexivity |].
  destruct (eqb_spec k k0) as [-> | Hne].
  - exfalso. apply Hfresh. now left.
  - rewrite IH; [reflexivity |]. intros Hin. apply Hfresh. now right.
Qed.

Lemma get_of_nodup (k : K) (v : V) (d : PyDict.dict K V) :
  NoDup (PyDict.keys d) -> In (k, v) d -> PyDict.get eqb k d = Some v.
Proof.
  induction d as [| [k0 v0] d IH]; simpl; intros Hnd Hin; [contradiction |].
  inversion Hnd as [| ? ? Hnotin Hnd']; subst.
  destruct Hin as [[= -> ->] | Hin].
  - destruct (eqb_spec k k); [reflexivity | contradiction].
  - destruct (eqb_spec k k0) as [-> | Hne].
    + exfalso. apply Hnotin. apply (in_map fst) in Hin. exact Hin.
    + now apply IH.
Qed.

(** Writing a key leaves the keys as they are, or adds the new one last. *)
Lemma set_keys (k : K) (v : V) (d : PyDict.dict K V) :
  PyDict.keys (PyDict.set eqb k v d)
  = match PyDict.get eqb k d with
    | Some _ => PyDict.keys d
    | None => (PyDict.keys d ++ [k])%list
    end.
Proof.
  induction d as [| [k0 v0] d IH]; simpl; [reflexivity |].
  destruct (eqb_spec k k0) as [-> | Hne]; simpl; [reflexivity |].
  rewrite IH. destruct (PyDict.get eqb k d); reflexivity.
Qed.

(** Writing keeps the keys distinct. *)
Lemma set_keys_nodup (k : K) (v : V) (d : PyDict.dict K V) :
  NoDup (PyDict.keys d) -> NoDup (PyDict.keys (PyDict.set eqb k v d)).
Proof.
  intros Hnd. rewrite set_keys.
  destruct (PyDict.get eqb k d) as [v0 |] eqn:Hget; [exact Hnd |].
  apply get_none_iff in Hget.
  apply NoDup_app; [exact Hnd | repeat constructor; intros [] |].
  intros x Hx [<- | []]. contradiction.
Qed.

End DictOrder.

Section StartupRuns.
Local Open Scope py_scope.
Variable MIDI_PORT_HINT : string.
Variable CC_TO_BUS : PyDict.dict Z string.
Variable sinks : PyDict.dict string Z.

(** Every bus of [items] has a sink. *)
Let all_found (items : PyDict.dict Z string) : Prop :=
  forall (cc : Z) (bus : string),
    In (cc, bus) items -> PyDict.mem String.eqb bus sinks = true.

Lemma joined_cons_found (cc id : Z) (bus : string) (items : PyDict.dict Z string) :
  PyDict.get String.eqb bus sinks = Some id ->
  joined ((cc, bus) :: items) sinks = (cc, (bus, id)) :: joined items sinks.
Proof. intros Hget. unfold joined. simpl. now rewrite Hget. Qed.

Lemma joined_keys (items : PyDict.dict Z string) :
  all_found items -> PyDict.keys (joined items sinks) = PyDict.keys items.
Proof.
  induction items as [| [cc bus] items IH]; intros Hall; [reflexivity |].
  assert (Hmem := Hall cc bus (or_introl eq_refl)). unfold PyDict.mem in Hmem.
  destruct (PyDict.get String.eqb bus sinks) as [id |] eqn:Hget; [| discriminate].
  rewrite (joined_cons_found cc id bus items Hget). simpl. f_equal.
  apply IH. intros c b Hin. apply (Hall c b). now right.
Qed.

Lemma bus_table_keys (items : PyDict.dict Z string) :
  all_found items -> PyDict.keys (bus_table items sinks) = PyDict.keys items.
Proof.
  intros Hall. rewrite <- (joined_keys items Hall).
  unfold bus_table, PyDict.keys. rewrite map_map. reflexivity.
Qed.

Lemma in_joined (cc id : Z) (bus : string) (items : PyDict.dict Z string) :
  In (cc, bus) items -> PyDict.get String.eqb bus sinks = Some id ->
  In (cc, (bus, id)) (joined items sinks).
Proof.
  intros Hin Hget. unfold joined. apply in_flat_map.
  exists (cc, bus). split; [exact Hin |]. simpl. rewrite Hget. now left.
Qed.

(** When every configured bus has a sink, the loop over the
    configuration prints nothing and returns the table. *)
Lemma resolve_buses_ok (items : PyDict.dict Z string) :
  forall (acc : PyDict.dict Z Z) (w : World) (t : list Event),
    NoDup (PyDict.keys acc ++ PyDict.keys items) ->
    all_found items ->
    resolve_buses items sinks acc w t
    = (inr (acc ++ bus_table items sinks)%list, t).
Proof.
  induction items as [| [cc bus] items IH]; intros acc w t Hnd Hall.
  - simpl. unfold ret, bus_table. simpl. now rewrite app_nil_r.
  - assert (Hmem := Hall cc bus (or_introl eq_refl)).
    simpl resolve_buses. rewrite Hmem. cbn [negb].
    unfold PyDict.mem in Hmem.
    destruct (PyDict.get String.eqb bus sinks) as [id |] eqn:Hget; [| discriminate].
    unfold getitem_str. rewrite Hget. unfold bind at 1, ret at 1.
    assert (Hfresh : ~ In cc (PyDict.keys acc)).
    { intros Hin. apply NoDup_remove_2 in Hnd. apply Hnd.
      apply in_or_app. now left. }
    rewrite (set_fresh Z.eqb Z.eqb_spec cc id acc Hfresh).
    rewrite IH.
    + unfold bus_table. rewrite (joined_cons_found cc id bus items Hget).
      simpl. now rewrite <- app_assoc.
    + unfold PyDict.keys in *. rewrite map_app, <- app_assoc. exact Hnd.
    + intros c b Hin. apply (Hall c b). now right.
Qed.

(** The comprehension of the mapping line never misses a key. *)
Lemma mapping_of_ok (bus_ids : PyDict.dict Z Z) (items : PyDict.dict Z string) :
  forall (acc : PyDict.dict Z (string * Z)) (w : World) (t : list Event),
    (forall (cc : Z) (bus : string),
        In (cc, bus) items ->
        PyDict.get Z.eqb cc CC_TO_BUS = Some bus
        /\ exists id : Z,
             PyDict.get String.eqb bus sinks = Some id
             /\ PyDict.get Z.eqb cc bus_ids = Some id) ->
    NoDup (PyDict.keys acc ++ PyDict.keys items) ->
    mapping_of CC_TO_BUS (PyDict.keys items) bus_ids acc w t
    = (inr (acc ++ joined items sinks)%list, t).
Proof.
  induction items as [| [cc bus] items IH]; intros acc w t Hok Hnd.
  - simpl. unfold ret, joined. simpl. now rewrite app_nil_r.
  - destruct (Hok cc bus (or_introl eq_refl)) as (Hbus & id & Hid & Hcc).
    simpl mapping_of. unfold getitem. rewrite Hbus, Hcc.
    unfold bind at 1, ret at 1. cbv beta iota.
    unfold bind at 1, ret at 1. cbv beta iota.
    assert (Hfresh : ~ In cc (PyDict.keys acc)).
    { intros Hin. apply NoDup_remove_2 in Hnd. apply Hnd.
      apply in_or_app. now left. }
    rewrite (set_fresh Z.eqb Z.eqb_spec cc (bus, id) acc Hfresh).
    rewrite IH.
    + rewrite (joined_cons_found cc id bus items Hid). simpl.
      now rewrite <- app_assoc.
    + intros c b Hin. apply (Hok c b). now right.
    + unfold PyDict.keys in *. rewrite map_app, <- app_assoc. exact Hnd.
Qed.

(** When every configured bus has a sink and an input matches the hint,
    [main] prints its three lines, opens the first matching port and runs
    the event loop with the table that joins the configuration with the
    sink table; the port is closed when the loop returns and when it
    raises, and the outcome of [main] is the one of the loop.  A port that
    fails to open ends [main] with that exception. *)
Theorem main_runs (w : World) (txt : string) (ports : list string) (port : string) :
  run_command w ["wpctl"; "status"] = inr txt ->
  parse_sinks txt = inr sinks ->
  NoDup (PyDict.keys CC_TO_BUS) ->
  all_found CC_TO_BUS ->
  input_names w = inr ports ->
  first_matching_port MIDI_PORT_HINT ports = Some port ->
  main MIDI_PORT_HINT CC_TO_BUS w []
  = match open_input w port with
    | inl e =>
        (inl e, (startup_events CC_TO_BUS sinks port ++ [OpenedInput port])%list)
    | inr msgs =>
        (fst (event_loop (bus_table CC_TO_BUS sinks) msgs w
                (startup_events CC_TO_BUS sinks port ++ [OpenedInput port])%list),
         (snd (event_loop (bus_table CC_TO_BUS sinks) msgs w
                 (startup_events CC_TO_BUS sinks port ++ [OpenedInput port])%list)
            ++ [ClosedInput port])%list)
    end.
Proof.
  intros Hstatus Hparse Hnd Hall Hports Hport.
  unfold main. unfold bind at 1. unfold print, emit at 1.
  unfold bind at 1. unfold get_sink_ids_by_description.
  unfold bind at 1. unfold sh at 1. rewrite Hstatus.
  unfold lift. rewrite Hparse.
  unfold bind at 1. rewrite (resolve_buses_ok CC_TO_BUS [] w _ Hnd Hall).
  simpl app.
  unfold bind at 1. unfold find_midi_port. unfold bind at 1.
  rewrite Hports, Hport. unfold ret at 1.
  unfold bind at 1. unfold emit at 1.
  unfold bind at 1.
  rewrite (mapping_of_ok (bus_table CC_TO_BUS sinks) CC_TO_BUS [] w _).
  - unfold bind at 1. unfold emit at 1.
    unfold bind at 1. unfold emit at 1.
    unfold with_open_input. simpl app.
    destruct (open_input w port) as [e | msgs]; [reflexivity |].
    unfold startup_events. simpl app.
    destruct (event_loop _ msgs w _) as [r t']. reflexivity.
  - intros cc bus Hin. split.
    + now apply (get_of_nodup Z.eqb Z.eqb_spec).
    + assert (Hmem := Hall cc bus Hin). unfold PyDict.mem in Hmem.
      destruct (PyDict.get String.eqb bus sinks) as [id |] eqn:Hget; [| discriminate].
      exists id. split; [reflexivity |].
      apply (get_of_nodup Z.eqb Z.eqb_spec).
      * now rewrite (bus_table_keys CC_TO_BUS Hall).
      * unfold bus_table.
        apply (in_map (fun x : Z * (string * Z) => (fst x, snd (snd x)))
                      _ (cc, (bus, id))).
        now apply in_joined.
  - exact Hnd.
Qed.

End StartupRuns.

(* ================================================================== *)
(** * The shape of every run *)
(* ================================================================== *)

Section RunShape.
Local Open Scope py_scope.
Variable MIDI_PORT_HINT : string.
Variable CC_TO_BUS : PyDict.dict Z string.

Lemma get_sink_ids_trace (w : World) (t : list Event) :
  snd (get_sink_ids_by_description w t) = (t ++ [Ran ["wpctl"; "status"]])%list.
Proof.
  unfold get_sink_ids_by_description, bind, sh, lift.
  destruct (run_command w _); reflexivity.
Qed.

Lemma find_midi_port_trace (w : World) (t : list Event) :
  snd (find_midi_port MIDI_PORT_HINT w t) = (t ++ [ListedInputs])%list.
Proof.
  unfold find_midi_port, bind, ret, raise.
  destruct (input_names w) as [e | ports]; [reflexivity |].
  destruct (first_matching_port MIDI_PORT_HINT ports); reflexivity.
Qed.

Lemma resolve_buses_trace (sinks : PyDict.dict string Z) (items : PyDict.dict Z string) :
  forall (acc : PyDict.dict Z Z) (w : World) (t : list Event),
  exists extra : list Event,
    snd (resolve_buses items sinks acc w t) = (t ++ extra)%list
    /\ Forall runs_nothing extra.
Proof.
  induction items as [| [cc bus] items IH]; intros acc w t.
  - exists []. simpl. now rewrite app_nil_r.
  - simpl resolve_buses.
    destruct (PyDict.mem String.eqb bus sinks) eqn:Hmem; cbn [negb].
    + unfold getitem_str. unfold PyDict.mem in Hmem.
      destruct (PyDict.get String.eqb bus sinks) as [id |]; [| discriminate].
      unfold bind at 1, ret at 1. apply IH.
    + exists [Printed (missing_sink_message bus sinks)]. split; [reflexivity |].
      constructor; [| constructor]. intros cmd. discriminate.
Qed.

Lemma mapping_of_trace (ccs : list Z) (bus_ids : PyDict.dict Z Z) :
  forall (acc : PyDict.dict Z (string * Z)) (w : World) (t : list Event),
    snd (mapping_of CC_TO_BUS ccs bus_ids acc w t) = t.
Proof.
  induction ccs as [| cc ccs IH]; intros acc w t; [reflexivity |].
  simpl mapping_of. unfold getitem.
  destruct (PyDict.get Z.eqb cc CC_TO_BUS) as [bus |]; [| reflexivity].
  unfold bind at 1, ret at 1.
  destruct (PyDict.get Z.eqb cc bus_ids) as [id |]; [| reflexivity].
  unfold bind at 1, ret at 1. apply IH.
Qed.

Lemma set_volume_trace (node val : Z) (w : World) (t : list Event) :
  snd (set_volume node val w t) = t
  \/ exists pct : Z, snd (set_volume node val w t) = (t ++ [Ran (set_volume_command node pct)])%list.
Proof.
  destruct (percentage val) as [e | pct] eqn:Hp.
  - left. unfold set_volume, bind, lift. now rewrite Hp.
  - right. exists pct. now rewrite (set_volume_run node val pct w t Hp).
Qed.

Lemma on_message_trace (bus_ids : PyDict.dict Z Z) (msg : Message)
      (w : World) (t : list Event) :
  exists evs : list Event,
    snd (on_message bus_ids msg w t) = (t ++ evs)%list /\ Forall loop_event evs.
Proof.
  assert (Hnil : exists evs : list Event, t = (t ++ evs)%list /\ Forall loop_event evs).
  { exists []. now rewrite app_nil_r. }
  unfold on_message.
  destruct (String.eqb (type msg) "control_change"); [| exact Hnil].
  unfold getattr.
  destruct (control msg) as [cc |]; [| exact Hnil].
  unfold bind at 1, ret at 1.
  destruct (value msg) as [val |]; [| exact Hnil].
  unfold bind at 1, ret at 1.
  destruct (PyDict.mem Z.eqb cc bus_ids); [| exact Hnil].
  unfold getitem.
  destruct (PyDict.get Z.eqb cc bus_ids) as [node |]; [| exact Hnil].
  unfold bind at 1, ret at 1.
  destruct (set_volume_trace node val w t) as [-> | [pct ->]]; [exact Hnil |].
  exists [Ran (set_volume_command node pct)]. split; [reflexivity |].
  constructor; [| constructor]. right. now exists node, pct.
Qed.

Lemma event_loop_events (bus_ids : PyDict.dict Z Z) (msgs : list Message) :
  forall (w : World) (t : list Event),
  exists evs : list Event,
    snd (event_loop bus_ids msgs w t) = (t ++ evs)%list /\ Forall loop_event evs.
Proof.
  induction msgs as [| m msgs IH]; intros w t.
  - exists []. simpl. now rewrite app_nil_r.
  - change (event_loop bus_ids (m :: msgs))
      with (emit (Received m) ;;; on_message bus_ids m ;;; event_loop bus_ids msgs).
    unfold bind at 1. unfold emit at 1. unfold bind at 1.
    destruct (on_message_trace bus_ids m w (t ++ [Received m])%list)
      as (evs1 & Hevs1 & Hall1).
    destruct (on_message bus_ids m w (t ++ [Received m])%list) as [[e | []] t1];
      simpl in Hevs1; subst t1.
    + exists (Received m :: evs1). split; [simpl; now rewrite <- app_assoc |].
      constructor; [left; now exists m | exact Hall1].
    + destruct (IH w ((t ++ [Received m]) ++ evs1)%list) as (evs2 & Hevs2 & Hall2).
      exists (Received m :: evs1 ++ evs2). split.
      * rewrite Hevs2. rewrite <- !app_assoc. reflexivity.
      * constructor; [left; now exists m |].
        apply Forall_app. now split.
Qed.

(** The phases of a run, whatever the outside world does. *)
Lemma main_phases (w : World) :
  exists quiet running : list Event,
    snd (main MIDI_PORT_HINT CC_TO_BUS w [])
    = (Printed "Scanning PipeWire sinks..." :: Ran ["wpctl"; "status"]
         :: quiet ++ running)%list
    /\ Forall runs_nothing quiet
    /\ (running = []
        \/ exists port : string,
             (running = [OpenedInput port]
              /\ exists e : Exn, open_input w port = inl e)
             \/ exists evs : list Event,
                  running = (OpenedInput port :: evs ++ [ClosedInput port])%list
                  /\ Forall loop_event evs).
Proof.
  assert (Hq : forall e : Event,
             (e = ListedInputs \/ exists line : string, e = Printed line) ->
             runs_nothing e).
  { intros e [-> | [line ->]] cmd; discriminate. }
  unfold main. unfold bind at 1. unfold print, emit at 1.
  unfold bind at 1.
  pose proof (get_sink_ids_trace w ([] ++ [Printed "Scanning PipeWire sinks..."])%list)
    as Ht1.
  destruct (get_sink_ids_by_description w _) as [[e1 | sinks] t1];
    simpl in Ht1; subst t1.
  { exists [], []. repeat split; [constructor | now left]. }
  unfold bind at 1.
  destruct (resolve_buses_trace sinks CC_TO_BUS [] w
              [Printed "Scanning PipeWire sinks..."; Ran ["wpctl"; "status"]])
    as (extra & Ht2 & Hextra).
  destruct (resolve_buses CC_TO_BUS sinks [] w _) as [[e2 | bus_ids] t2];
    simpl in Ht2; subst t2.
  { exists extra, []. rewrite app_nil_r. repeat split; [exact Hextra | now left]. }
  unfold bind at 1.
  pose proof (find_midi_port_trace w
                (Printed "Scanning PipeWire sinks..." :: Ran ["wpctl"; "status"] :: extra))
    as Ht3.
  destruct (find_midi_port MIDI_PORT_HINT w _) as [[e3 | port] t3];
    simpl in Ht3; subst t3.
  { exists (extra ++ [ListedInputs])%list, []. rewrite app_nil_r.
    repeat split; [| now left].
    apply Forall_app. split; [exact Hextra |].
    constructor; [apply Hq; now left | constructor]. }
  unfold bind at 1. unfold emit at 1. unfold bind at 1.
  pose proof (mapping_of_trace (PyDict.keys CC_TO_BUS) bus_ids [] w
                ((Printed "Scanning PipeWire sinks..." :: Ran ["wpctl"; "status"]
                    :: extra ++ [ListedInputs])
                   ++ [Printed ("Listening on MIDI: " ++ port)])%list) as Ht4.
  destruct (mapping_of CC_TO_BUS (PyDict.keys CC_TO_BUS) bus_ids [] w _)
    as [[e4 | mapping] t4]; simpl in Ht4; subst t4.
  { exists ((extra ++ [ListedInputs]) ++ [Printed ("Listening on MIDI: " ++ port)])%list, [].
    rewrite app_nil_r. repeat split; [| now left].
    repeat (apply Forall_app; split); try exact Hextra;
      (constructor; [apply Hq | constructor]);
      [now left | right; now eexists]. }
  unfold bind at 1. unfold emit at 1. unfold bind at 1. unfold emit at 1.
  set (quiet := (extra ++ [ListedInputs; Printed ("Listening on MIDI: " ++ port);
                           Printed ("Mapping: " ++ repr_mapping mapping);
                           Printed "Move knobs now... (Ctrl+C to exit)"])%list).
  assert (Hquiet : Forall runs_nothing quiet).
  { apply Forall_app. split; [exact Hextra |].
    repeat (constructor; [apply Hq; (now left) || (right; now eexists) |]).
    constructor. }
  match goal with
  | |- context [with_open_input port _ w ?T] =>
      assert (Htr : T = (Printed "Scanning PipeWire sinks..." :: Ran ["wpctl"; "status"]
                           :: quiet)%list)
        by (unfold quiet; simpl; rewrite <- ?app_assoc; reflexivity);
      rewrite Htr
  end.
  unfold with_open_input.
  destruct (open_input w port) as [e5 | msgs] eqn:Hopen.
  - exists quiet, [OpenedInput port]. split; [reflexivity |].
    split; [exact Hquiet |]. right. exists port. left. split; [reflexivity | now exists e5].
  - destruct (event_loop_events bus_ids msgs w
                ((Printed "Scanning PipeWire sinks..." :: Ran ["wpctl"; "status"] :: quiet)
                   ++ [OpenedInput port])%list) as (evs & Hevs & Hall).
    destruct (event_loop bus_ids msgs w _) as [r t5]. cbn [snd] in Hevs. subst t5.
    exists quiet, (OpenedInput port :: evs ++ [ClosedInput port])%list.
    split; [cbn [snd]; simpl; rewrite <- ?app_assoc; reflexivity |].
    split; [exact Hquiet |]. right. exists port. right. exists evs. now split.
Qed.

(** Whatever the outside world does, a run of [main] starts with the
    banner and the one status command; then come events that run no
    command; then, if a port was opened at all, the opening, messages and
    volume commands only, and the closing of the port as the last event
    (or nothing after the opening, when the port failed to open).  So the
    status command is never run again and no volume command is run
    before the port is open. *)
Theorem main_trace_shape (w : World) :
  exists quiet running : list Event,
    snd (main MIDI_PORT_HINT CC_TO_BUS w [])
    = (Printed "Scanning PipeWire sinks..." :: Ran ["wpctl"; "status"]
         :: quiet ++ running)%list
    /\ Forall runs_nothing quiet
    /\ (running = []
        \/ exists port : string,
             (running = [OpenedInput port]
              /\ exists e : Exn, open_input w port = inl e)
             \/ exists evs : list Event,
                  running = (OpenedInput port :: evs ++ [ClosedInput port])%list
                  /\ Forall loop_event evs)
    /\ ~ In (Ran ["wpctl"; "status"]) (quiet ++ running)%list.
Proof.
  destruct (main_phases w) as (quiet & running & Htrace & Hquiet & Hrunning).
  exists quiet, running. repeat split; try assumption.
  intros Hin. apply in_app_or in Hin. destruct Hin as [Hin | Hin].
  - rewrite Forall_forall in Hquiet. now apply (Hquiet _ Hin ["wpctl"; "status"]).
  - destruct Hrunning as [-> | [port [[-> _] | [evs [-> Hevs]]]]].
    + contradiction.
    + destruct Hin as [Hin | []]. discriminate.
    + destruct Hin as [Hin | Hin]; [discriminate |].
      apply in_app_or in Hin. destruct Hin as [Hin | [Hin | []]]; [| discriminate].
      rewrite Forall_forall in Hevs.
      destruct (Hevs _ Hin) as [[msg Hmsg] | [node [pct Hcmd]]]; [discriminate |].
      unfold set_volume_command in Hcmd. discriminate.
Qed.

End RunShape.

(* ================================================================== *)
(** * Startup failures *)
(* ================================================================== *)

Section StartupFailures.
Local Open Scope py_scope.
Variable MIDI_PORT_HINT : string.
Variable CC_TO_BUS : PyDict.dict Z string.

(** With every bus found the loop over the configuration returns a
    table and prints nothing. *)
Lemma resolve_buses_found (sinks : PyDict.dict string Z) (items : PyDict.dict Z string) :
  (forall (cc : Z) (bus : string),
      In (cc, bus) items -> PyDict.mem String.eqb bus sinks = true) ->
  forall (acc : PyDict.dict Z Z) (w : World) (t : list Event),
  exists bus_ids : PyDict.dict Z Z,
    resolve_buses items sinks acc w t = (inr bus_ids, t).
Proof.
  induction items as [| [cc bus] items IH]; intros Hall acc w t.
  - now exists acc.
  - assert (Hmem := Hall cc bus (or_introl eq_refl)).
    simpl resolve_buses. rewrite Hmem. cbn [negb].
    unfold PyDict.mem in Hmem.
    destruct (PyDict.get String.eqb bus sinks) as [id |] eqn:Hget; [| discriminate].
    unfold getitem_str. rewrite Hget. unfold bind at 1, ret at 1.
    apply IH. intros c b Hin. apply (Hall c b). now right.
Qed.

(** When the sinks are all found but the hint occurs in no input name,
    [main] ends with the RuntimeError of the port locator and exit
    status 1, having listed the inputs once; it has opened no port and
    printed nothing after the banner. *)
Theorem main_port_not_found (w : World) (txt : string) (sinks : PyDict.dict string Z)
        (ports : list string) :
  run_command w ["wpctl"; "status"] = inr txt ->
  parse_sinks txt = inr sinks ->
  (forall (cc : Z) (bus : string),
      In (cc, bus) CC_TO_BUS -> PyDict.mem String.eqb bus sinks = true) ->
  input_names w = inr ports ->
  (forall q : string, In q ports -> ~ names_hint MIDI_PORT_HINT q) ->
  main MIDI_PORT_HINT CC_TO_BUS w []
  = (inl (RuntimeError (no_port_message MIDI_PORT_HINT ports)),
     [Printed "Scanning PipeWire sinks..."; Ran ["wpctl"; "status"]; ListedInputs])
  /\ exit_status (fst (main MIDI_PORT_HINT CC_TO_BUS w [])) = 1.
Proof.
  intros Hstatus Hparse Hall Hports Hnone.
  apply first_matching_port_none in Hnone.
  assert (Hmain : main MIDI_PORT_HINT CC_TO_BUS w []
                  = (inl (RuntimeError (no_port_message MIDI_PORT_HINT ports)),
                     [Printed "Scanning PipeWire sinks..."; Ran ["wpctl"; "status"];
                      ListedInputs])).
  { unfold main. unfold bind at 1. unfold print, emit at 1.
    unfold bind at 1. unfold get_sink_ids_by_description.
    unfold bind at 1. unfold sh at 1. rewrite Hstatus.
    unfold lift. rewrite Hparse.
    destruct (resolve_buses_found sinks CC_TO_BUS Hall [] w
                (([] ++ [Printed "Scanning PipeWire sinks..."])
                   ++ [Ran ["wpctl"; "status"]])%list) as [bus_ids Hrun].
    unfold bind at 1. rewrite Hrun.
    unfold bind at 1. unfold find_midi_port. unfold bind at 1.
    rewrite Hports, Hnone. reflexivity. }
  rewrite Hmain. split; reflexivity.
Qed.

(** When the status command fails, or its output makes the scan raise,
    [main] ends with that exception right after the command: nothing is
    printed after the banner, the inputs are not listed. *)
Theorem main_status_error (w : World) (e : Exn) :
  run_command w ["wpctl"; "status"] = inl e
  \/ (exists txt : string,
         run_command w ["wpctl"; "status"] = inr txt /\ parse_sinks txt = inl e) ->
  main MIDI_PORT_HINT CC_TO_BUS w []
  = (inl e, [Printed "Scanning PipeWire sinks..."; Ran ["wpctl"; "status"]]).
Proof.
  intros Hcase.
  unfold main. unfold bind at 1. unfold print, emit at 1.
  unfold bind at 1. unfold get_sink_ids_by_description.
  unfold bind at 1. unfold sh at 1.
  destruct Hcase as [Hfail | [txt [Hok Hparse]]].
  - rewrite Hfail. reflexivity.
  - rewrite Hok. unfold lift. rewrite Hparse. reflexivity.
Qed.

End StartupFailures.

(* ================================================================== *)
(** * Sink table: what the resolver returns *)
(* ================================================================== *)

Section SinkTable.
Import PyStr Re.

(** ** Stripping *)

Lemma lstrip_head (s : string) :
  lstrip s = EmptyString
  \/ exists (c : ascii) (r : string), lstrip s = String c r /\ isspace c = false.
Proof.
  induction s as [| c s IH]; simpl; [now left |].
  destruct (isspace c) eqn:Hc; [exact IH |].
  right. now exists c, s.
Qed.

Lemma rstrip_idempotent (s : string) : rstrip (rstrip s) = rstrip s.
Proof.
  induction s as [| c s IH]; simpl; [reflexivity |].
  destruct (rstrip s) as [| c' r'] eqn:Hr.
  - destruct (isspace c) eqn:Hc; simpl; [reflexivity | now rewrite Hc].
  - simpl. simpl in IH. now rewrite IH.
Qed.

(** Stripping twice is stripping once. *)
Lemma strip_idempotent (s : string) : strip (strip s) = strip s.
Proof.
  unfold strip.
  destruct (lstrip_head s) as [-> | (c & r & -> & Hc)]; [reflexivity |].
  destruct (rstrip_head c r) as [-> | [r' Hr]]; [reflexivity |].
  rewrite Hr. simpl lstrip. rewrite Hc. rewrite <- Hr. apply rstrip_idempotent.
Qed.

(** ** Identifiers *)

Lemma digit_value_range (c : ascii) : isdecimal c = true -> 0 <= PyInt.digit_value c <= 9.
Proof.
  unfold isdecimal, PyInt.digit_value. cbv zeta.
  generalize (ord c). intros n H.
  apply andb_true_iff in H. destruct H as [H1 H2].
  apply Z.leb_le in H1. apply Z.leb_le in H2. lia.
Qed.

Lemma decimal_value_nonneg (d : string) :
  all_in Digit d = true ->
  forall acc : Z, 0 <= acc -> 0 <= PyInt.decimal_value acc d.
Proof.
  induction d as [| c d IH]; cbn [PyInt.decimal_value all_in in_class];
    intros Hd acc Hacc; [exact Hacc |].
  apply andb_true_iff in Hd. destruct Hd as [Hc Hd].
  apply IH; [exact Hd |]. pose proof (digit_value_range c Hc). lia.
Qed.

Lemma int_of_str_value (d : string) (z : Z) :
  PyInt.int_of_str d = inr z -> z = PyInt.decimal_value 0 d.
Proof.
  unfold PyInt.int_of_str. destruct d as [| c d]; [discriminate |].
  destruct (PyInt.all_decimal (String c d)); [| discriminate].
  destruct (Nat.ltb _ _); [discriminate |]. now intros [= <-].
Qed.

(** ** The loop as a fold *)

Lemma sink_lines_loop_no_entry (line : string) (rest : list string)
      (out : PyDict.dict string Z) :
  is_sinks_header line = false ->
  is_sources_header line = false ->
  entry_of_line line = None ->
  sink_lines_loop (line :: rest) true out = sink_lines_loop rest true out.
Proof.
  intros Hh Hs Hentry. simpl sink_lines_loop.
  fold (is_sinks_header line) (is_sources_header line). rewrite Hh, Hs.
  cbn [andb negb].
  destruct (re_match line_re line) as [m |] eqn:Hm; [| reflexivity].
  destruct (entry_of_line_match line m Hm) as (d & n & _ & _ & He & _).
  congruence.
Qed.

(** Inside the sinks section the loop writes the entries of the
    matching lines, one after the other, up to the sources header. *)
Lemma sink_lines_loop_fold (lines : list string) :
  forall out : PyDict.dict string Z,
    (forall n d : string,
        In (n, d) (entries_of (up_to_first is_sources_header lines)) ->
        (String.length d <= PyInt.int_max_str_digits)%nat) ->
    sink_lines_loop lines true out
    = inr (fold_left write_entry
                     (entries_of (up_to_first is_sources_header lines)) out).
Proof.
  induction lines as [| line rest IH]; intros out Hlen; [reflexivity |].
  simpl up_to_first in Hlen |- *.
  destruct (is_sinks_header line) eqn:Hh.
  - rewrite (sink_lines_loop_header line rest true out Hh).
    rewrite (sinks_header_not_sources line Hh) in Hlen |- *.
    rewrite entries_of_cons in Hlen |- *.
    rewrite (entry_of_line_none line (sinks_header_no_match line Hh)) in Hlen |- *.
    apply IH. exact Hlen.
  - destruct (is_sources_header line) eqn:Hs.
    + now rewrite (sink_lines_loop_sources line rest out Hs).
    + rewrite entries_of_cons in Hlen |- *.
      destruct (entry_of_line line) as [[n d] |] eqn:Hentry.
      * rewrite (sink_lines_loop_entry line n d rest out Hh Hs Hentry
                   (Hlen n d (or_introl eq_refl))).
        simpl app. simpl fold_left. apply IH.
        intros n' d' Hin. apply (Hlen n' d'). now right.
      * rewrite (sink_lines_loop_no_entry line rest out Hh Hs Hentry).
        apply IH. exact Hlen.
Qed.

(** ** Order of the names *)

Lemma existsb_keys (k : string) (d : PyDict.dict string Z) :
  existsb (String.eqb k) (PyDict.keys d) = PyDict.mem String.eqb k d.
Proof.
  unfold PyDict.mem. induction d as [| [k0 v0] d IH]; simpl; [reflexivity |].
  destruct (String.eqb k k0); [reflexivity | exact IH].
Qed.

Lemma write_entry_keys (out : PyDict.dict string Z) (e : string * string) :
  PyDict.keys (write_entry out e) = add_name (PyDict.keys out) (fst e).
Proof.
  unfold write_entry, add_name.
  rewrite (set_keys String.eqb String.eqb_spec), existsb_keys.
  unfold PyDict.mem. destruct (PyDict.get String.eqb (fst e) out); reflexivity.
Qed.

Lemma fold_write_keys (es : list (string * string)) :
  forall out : PyDict.dict string Z,
    PyDict.keys (fold_left write_entry es out)
    = fold_left add_name (map fst es) (PyDict.keys out).
Proof.
  induction es as [| e es IH]; intros out; [reflexivity |].
  simpl. now rewrite IH, write_entry_keys.
Qed.

(** The names of the table are those of the matching lines of the sinks
    section, in order of first appearance, each once: a repeated name
    keeps the place of its first line (and, by last-wins, takes the
    identifier of its last).  This is the order in which the diagnostic
    of [main] lists the known sinks. *)
Theorem sink_table_name_order (txt : string) :
  (forall n d : string,
      In (n, d) (section_entries (splitlines txt)) ->
      (String.length d <= PyInt.int_max_str_digits)%nat) ->
  exists out : PyDict.dict string Z,
    parse_sinks txt = inr out
    /\ PyDict.keys out
       = first_appearances (map fst (section_entries (splitlines txt))).
Proof.
  intros Hlen. unfold parse_sinks. rewrite sink_lines_loop_enters.
  rewrite (sink_lines_loop_fold _ [] Hlen).
  eexists. split; [reflexivity |].
  rewrite fold_write_keys. reflexivity.
Qed.

(** ** What the table keeps *)

Lemma in_set (k k' : string) (v v' : Z) (d : PyDict.dict string Z) :
  In (k', v') (PyDict.set String.eqb k v d) -> (k', v') = (k, v) \/ In (k', v') d.
Proof.
  induction d as [| [k0 v0] d IH]; simpl.
  - intros [H | []]. now left.
  - destruct (String.eqb_spec k k0) as [-> | Hne]; simpl.
    + intros [H | H]; [left; congruence | right; now right].
    + intros [H | H]; [right; now left |].
      destruct (IH H) as [Heq | Hin]; [now left | right; now right].
Qed.

(** Whatever holds of the table and is kept by writing a stripped name
    with the value of a run of digits holds when the loop returns. *)
Lemma sink_lines_loop_keeps (P : PyDict.dict string Z -> Prop) :
  (forall (out : PyDict.dict string Z) (n d : string),
      P out -> d <> EmptyString -> all_in Digit d = true ->
      P (PyDict.set String.eqb (strip n) (PyInt.decimal_value 0 d) out)) ->
  forall (lines : list string) (sinks_section : bool)
         (out out' : PyDict.dict string Z),
    sink_lines_loop lines sinks_section out = inr out' -> P out -> P out'.
Proof.
  intros Hset. induction lines as [| line rest IH]; intros b out out' Hrun HP.
  - simpl in Hrun. now injection Hrun as <-.
  - simpl in Hrun.
    destruct (startswith (strip line) "Sinks:"); [now apply (IH true out out') |].
    destruct (b && startswith (strip line) "Sources:").
    { now injection Hrun as <-. }
    destruct (negb b); [now apply (IH b out out') |].
    destruct (re_match line_re line) as [m |] eqn:Hm; [| now apply (IH b out out')].
    destruct (entry_of_line_match line m Hm) as (d & n & Hg2 & Hg3 & _ & Hne & Hd).
    rewrite Hg2, Hg3 in Hrun. simpl int_of_group in Hrun.
    destruct (PyInt.int_of_str d) as [e | id] eqn:Hint; [discriminate |].
    apply int_of_str_value in Hint. subst id. simpl strip_group in Hrun.
    apply (IH b _ out' Hrun). now apply Hset.
Qed.

(** In a table the resolver returns no name appears twice, every name
    is stripped of surrounding white space, and every identifier is a
    non-negative integer. *)
Theorem sink_table_invariants (txt : string) (out : PyDict.dict string Z) :
  parse_sinks txt = inr out ->
  NoDup (PyDict.keys out)
  /\ forall (name : string) (id : Z),
       In (name, id) out -> strip name = name /\ 0 <= id.
Proof.
  intros Hrun. unfold parse_sinks in Hrun.
  apply (sink_lines_loop_keeps
           (fun o => NoDup (PyDict.keys o)
                     /\ forall (name : string) (id : Z),
                          In (name, id) o -> strip name = name /\ 0 <= id)
           ) with (lines := splitlines txt) (sinks_section := false) (out := []).
  - intros o n d [Hnd Hall] Hne Hd. split.
    + now apply (set_keys_nodup String.eqb String.eqb_spec).
    + intros name id Hin. apply in_set in Hin. destruct Hin as [[= -> ->] | Hin].
      * split; [apply strip_idempotent | now apply decimal_value_nonneg].
      * now apply Hall.
  - exact Hrun.
  - split; [constructor | intros name id []].
Qed.

(** ** An identifier [int] refuses *)

Lemma sink_lines_loop_raises (lines : list string) :
  forall (out : PyDict.dict string Z) (good later : list (string * string))
         (n d : string),
    entries_of (up_to_first is_sources_header lines) = (good ++ (n, d) :: later)%list ->
    (forall n' d' : string,
        In (n', d') good -> (String.length d' <= PyInt.int_max_str_digits)%nat) ->
    (PyInt.int_max_str_digits < String.length d)%nat ->
    sink_lines_loop lines true out = inl (PyInt.exceeds_limit d).
Proof.
  induction lines as [| line rest IH]; intros out good later n d Hes Hgood Hlong.
  - simpl in Hes. destruct good; discriminate.
  - simpl up_to_first in Hes.
    destruct (is_sinks_header line) eqn:Hh.
    + rewrite (sink_lines_loop_header line rest true out Hh).
      rewrite (sinks_header_not_sources line Hh), entries_of_cons in Hes.
      rewrite (entry_of_line_none line (sinks_header_no_match line Hh)) in Hes.
      now apply (IH out good later n d).
    + destruct (is_sources_header line) eqn:Hs.
      { simpl in Hes. destruct good; discriminate. }
      rewrite entries_of_cons in Hes.
      destruct (entry_of_line line) as [[n0 d0] |] eqn:Hentry.
      * destruct good as [| [n1 d1] good]; simpl in Hes.
        -- injection Hes as -> -> _.
           simpl sink_lines_loop.
           fold (is_sinks_header line) (is_sources_header line). rewrite Hh, Hs.
           cbn [andb negb].
           destruct (re_match line_re line) as [m |] eqn:Hm.
           ++ destruct (entry_of_line_match line m Hm)
                as (d' & n' & Hg2 & Hg3 & He & Hne & Hd).
              rewrite He in Hentry. injection Hentry as _ <-.
              rewrite Hg2. simpl int_of_group.
              now rewrite (int_of_too_many_digits d' Hd Hlong).
           ++ rewrite (entry_of_line_none line Hm) in Hentry. discriminate.
        -- injection Hes as <- <- Hes.
           rewrite (sink_lines_loop_entry line n0 d0 rest out Hh Hs Hentry
                      (Hgood n0 d0 (or_introl eq_refl))).
           apply (IH _ good later n d Hes); [| exact Hlong].
           intros n' d' Hin. apply (Hgood n' d'). now right.
      * rewrite (sink_lines_loop_no_entry line rest out Hh Hs Hentry).
        now apply (IH out good later n d).
Qed.

(** The first matching line of the sinks section whose identifier has
    more than 4300 digits makes the resolver raise the ValueError of
    [int]: no table is returned, whatever the other lines hold. *)
Theorem sink_id_too_long (txt : string) (good later : list (string * string))
        (n d : string) :
  section_entries (splitlines txt) = (good ++ (n, d) :: later)%list ->
  (forall n' d' : string,
      In (n', d') good -> (String.length d' <= PyInt.int_max_str_digits)%nat) ->
  (PyInt.int_max_str_digits < String.length d)%nat ->
  parse_sinks txt = inl (PyInt.exceeds_limit d).
Proof.
  intros Hes Hgood Hlong. unfold parse_sinks. rewrite sink_lines_loop_enters.
  now apply (sink_lines_loop_raises _ [] good later n d).
Qed.

End SinkTable.

(* ================================================================== *)
(** * The matcher on a line it accepts *)
(* ================================================================== *)

Section MatcherForward.
Import PyStr Re.

(** A greedy repetition that can take all of [u] and no more goes on
    from there when the rest of the pattern matches from there. *)
Lemma star_greedy_max (k : cclass) (kont : cont) (s' : string) (m : captures) :
  stops k s' ->
  forall (u : string) (pos : nat) (caps : captures),
    all_in k u = true ->
    kont (pos + String.length u)%nat s' caps = Some m ->
    star_greedy k pos (u ++ s') caps kont = Some m.
Proof.
  intros Hstop. induction u as [| c u IH]; intros pos caps Hu Hk.
  - simpl in Hk. rewrite Nat.add_0_r in Hk. simpl.
    destruct s' as [| c r]; simpl; [exact Hk |].
    simpl in Hstop. now rewrite Hstop.
  - simpl in Hu. apply andb_true_iff in Hu. destruct Hu as [Hc Hu].
    simpl. rewrite Hc. rewrite (IH (S pos) caps Hu); [reflexivity |].
    simpl in Hk. now rewrite Nat.add_succ_r in Hk.
Qed.

(** A lazy repetition stops at the first place from which the rest of
    the pattern matches. *)
Lemma star_lazy_first (k : cclass) (kont : cont) (s' : string) (m : captures) :
  forall (u : string) (pos : nat) (caps : captures),
    all_in k u = true ->
    kont (pos + String.length u)%nat s' caps = Some m ->
    (forall u1 u2 : string,
        u = u1 ++ u2 -> u2 <> EmptyString ->
        kont (pos + String.length u1)%nat (u2 ++ s') caps = None) ->
    star_lazy k pos (u ++ s') caps kont = Some m.
Proof.
  induction u as [| c u IH]; intros pos caps Hu Hk Hfail.
  - simpl in Hk. rewrite Nat.add_0_r in Hk. simpl.
    destruct s'; simpl; now rewrite Hk.
  - simpl in Hu. apply andb_true_iff in Hu. destruct Hu as [Hc Hu].
    pose proof (Hfail EmptyString (String c u) eq_refl) as H0.
    simpl in H0. rewrite Nat.add_0_r in H0.
    simpl. rewrite H0 by discriminate. rewrite Hc.
    apply IH; [exact Hu | |].
    + simpl in Hk. now rewrite Nat.add_succ_r in Hk.
    + intros u1 u2 Hsplit Hne.
      specialize (Hfail (String c u1) u2). simpl in Hfail.
      rewrite Nat.add_succ_r in Hfail. apply Hfail; [now rewrite Hsplit | exact Hne].
Qed.

Lemma run_star_max (k : cclass) (kont : cont) (u s' : string) (pos : nat)
      (caps m : captures) :
  all_in k u = true -> stops k s' ->
  kont (pos + String.length u)%nat s' caps = Some m ->
  run (Star k) pos (u ++ s') caps kont = Some m.
Proof. intros Hu Hstop Hk. simpl. now apply star_greedy_max. Qed.

Lemma run_plus_max (k : cclass) (kont : cont) (u s' : string) (pos : nat)
      (caps m : captures) :
  u <> EmptyString -> all_in k u = true -> stops k s' ->
  kont (pos + String.length u)%nat s' caps = Some m ->
  run (Plus k) pos (u ++ s') caps kont = Some m.
Proof.
  intros Hne Hu Hstop Hk. destruct u as [| c u]; [contradiction |].
  simpl in Hu. apply andb_true_iff in Hu. destruct Hu as [Hc Hu].
  simpl. rewrite Hc. apply star_greedy_max; try assumption.
  simpl in Hk. now rewrite Nat.add_succ_r in Hk.
Qed.

Lemma run_plus_lazy_first (k : cclass) (kont : cont) (u s' : string) (pos : nat)
      (caps m : captures) :
  u <> EmptyString -> all_in k u = true ->
  kont (pos + String.length u)%nat s' caps = Some m ->
  (forall u1 u2 : string,
      u = u1 ++ u2 -> u1 <> EmptyString -> u2 <> EmptyString ->
      kont (pos + String.length u1)%nat (u2 ++ s') caps = None) ->
  run (PlusLazy k) pos (u ++ s') caps kont = Some m.
Proof.
  intros Hne Hu Hk Hfail. destruct u as [| c u]; [contradiction |].
  simpl in Hu. apply andb_true_iff in Hu. destruct Hu as [Hc Hu].
  simpl. rewrite Hc. apply star_lazy_first; try assumption.
  - simpl in Hk. now rewrite Nat.add_succ_r in Hk.
  - intros u1 u2 Hsplit Hne2.
    specialize (Hfail (String c u1) u2). simpl in Hfail.
    rewrite Nat.add_succ_r in Hfail.
    apply Hfail; [now rewrite Hsplit | discriminate | exact Hne2].
Qed.

Lemma run_lit (x : string) (kont : cont) :
  x <> EmptyString ->
  forall (s' : string) (pos : nat) (caps : captures),
    run (lit x) pos (x ++ s') caps kont = kont (pos + String.length x)%nat s' caps.
Proof.
  induction x as [| c x IH]; intros Hne s' pos caps; [contradiction |].
  destruct x as [| c' x'].
  - simpl. rewrite Ascii.eqb_refl. now rewrite Nat.add_1_r.
  - change (lit (String c (String c' x')))
      with (Seq (Chr (Lit c)) (lit (String c' x'))).
    cbn [run]. cbn [append]. cbn [in_class]. rewrite Ascii.eqb_refl.
    change (String c' (x' ++ s')) with (String c' x' ++ s').
    rewrite IH by discriminate.
    cbn [String.length]. now rewrite !Nat.add_succ_r, Nat.add_succ_l.
Qed.

End MatcherForward.

(* ================================================================== *)
(** * Names and the end of the name field *)
(* ================================================================== *)

Section NameField.
Import PyStr Re.

Lemma rstrip_length (s : string) : (String.length (rstrip s) <= String.length s)%nat.
Proof.
  induction s as [| c s IH]; simpl; [lia |].
  destruct (rstrip s) as [| c' r'].
  - destruct (isspace c); simpl; lia.
  - simpl in *. lia.
Qed.

Lemma rstrip_app_spaces (u1 u : string) :
  all_in Space u = true -> rstrip (u1 ++ u) = rstrip u1.
Proof.
  intros Hu. induction u1 as [| c u1 IH]; simpl.
  - induction u as [| x u IHu]; simpl; [reflexivity |].
    simpl in Hu. apply andb_true_iff in Hu. destruct Hu as [Hx Hu].
    rewrite (IHu Hu). now rewrite Hx.
  - now rewrite IH.
Qed.

(** The white space a text starts with, and what follows it. *)
Lemma leading_spaces (u : string) :
  exists ws t : string,
    u = ws ++ t /\ all_in Space ws = true /\ stops Space t.
Proof.
  induction u as [| c u IH].
  - exists EmptyString, EmptyString. now repeat split.
  - destruct (isspace c) eqn:Hc.
    + destruct IH as (ws & t & -> & Hws & Ht).
      exists (String c ws), t. repeat split; [| exact Ht].
      simpl. now rewrite Hc, Hws.
    + exists EmptyString, (String c u). now repeat split.
Qed.

Lemma leading_spaces_unique (a b s t : string) :
  all_in Space a = true -> all_in Space b = true ->
  stops Space s -> stops Space t ->
  s <> EmptyString -> t <> EmptyString ->
  a ++ s = b ++ t -> a = b /\ s = t.
Proof.
  revert b. induction a as [| x a IH]; intros b Ha Hb Hs Ht Hsne Htne Heq.
  - destruct b as [| y b]; [now split |].
    simpl in Heq, Hb. apply andb_true_iff in Hb. destruct Hb as [Hy _].
    destruct s as [| c s]; [contradiction |].
    injection Heq as -> _. simpl in Hs. congruence.
  - simpl in Ha. apply andb_true_iff in Ha. destruct Ha as [Hx Ha].
    destruct b as [| y b].
    + simpl in Heq. destruct t as [| c t]; [contradiction |].
      injection Heq as <- _. simpl in Ht. congruence.
    + simpl in Heq, Hb. apply andb_true_iff in Hb. destruct Hb as [_ Hb].
      injection Heq as <- Heq.
      destruct (IH b Ha Hb Hs Ht Hsne Htne Heq) as [-> ->]. now split.
Qed.

(** A text that ends a stripped text is not made of white space only. *)
Lemma stripped_suffix_visible (u1 u2 : string) :
  rstrip (u1 ++ u2) = u1 ++ u2 -> u2 <> EmptyString ->
  exists (ws : string) (x : ascii) (y : string),
    u2 = ws ++ String x y /\ all_in Space ws = true /\ isspace x = false.
Proof.
  intros Hr Hne.
  destruct (leading_spaces u2) as (ws & t & Hu2 & Hws & Ht).
  destruct t as [| x y].
  - exfalso. rewrite append_nil_r in Hu2. subst u2.
    rewrite (rstrip_app_spaces u1 ws Hws) in Hr.
    pose proof (rstrip_length u1) as Hlen. rewrite Hr, length_append in Hlen.
    destruct ws; [contradiction | simpl in Hlen; lia].
  - exists ws, x, y. now repeat split.
Qed.

(** From inside a plain name the end of the name field cannot be seen:
    white space followed by the volume marker does not start at any
    place of the name after its first character. *)
Lemma no_marker_inside (name u1 u2 sep2 rest ws r : string) :
  rstrip name = name ->
  ~ occurs_in "[vol:" name ->
  name = u1 ++ u2 -> u2 <> EmptyString ->
  sep2 <> EmptyString -> all_in Space sep2 = true ->
  all_in Space ws = true ->
  u2 ++ sep2 ++ "[vol:" ++ rest = ws ++ "[vol:" ++ r -> False.
Proof.
  intros Hr Hno Hname Hne Hsne Hsep Hws Heq.
  rewrite Hname in Hr.
  destruct (stripped_suffix_visible u1 u2 Hr Hne) as (ws0 & x & y & Hu2 & Hws0 & Hx).
  rewrite Hu2, append_assoc in Heq.
  apply leading_spaces_unique in Heq;
    [| assumption | assumption | exact Hx | reflexivity | discriminate | discriminate].
  destruct Heq as [_ Heq].
  destruct sep2 as [| c0 sep2']; [contradiction |].
  simpl in Hsep. apply andb_true_iff in Hsep. destruct Hsep as [Hc0 _].
  simpl in Heq. injection Heq as -> Heq.
  destruct y as [| y1 [| y2 [| y3 [| y4 y']]]]; simpl in Heq;
    try (injection Heq as; subst; discriminate Hc0).
  injection Heq as -> -> -> -> _.
  apply Hno. rewrite Hname, Hu2.
  exists (u1 ++ ws0), y'. now rewrite append_assoc.
Qed.

End NameField.

(* ================================================================== *)
(** * Lines in the documented layout *)
(* ================================================================== *)

Section SinkLines.
Import PyStr Re.

Lemma run_seq (r1 r2 : regex) (pos : nat) (s : string) (caps : captures) (kont : cont) :
  run (Seq r1 r2) pos s caps kont
  = run r1 pos s caps (fun pos' s' caps' => run r2 pos' s' caps' kont).
Proof. reflexivity. Qed.

Lemma run_group (n : nat) (r : regex) (pos : nat) (s : string) (caps : captures)
      (kont : cont) :
  run (Group n r) pos s caps kont
  = run r pos s caps (fun pos' s' caps' => kont pos' s' ((n, (pos, pos')) :: caps')).
Proof. reflexivity. Qed.

Lemma run_chr (k : cclass) (c : ascii) (s' : string) (pos : nat) (caps : captures)
      (kont : cont) :
  in_class k c = true ->
  run (Chr k) pos (String c s') caps kont = kont (S pos) s' caps.
Proof. intros Hc. simpl. now rewrite Hc. Qed.

Lemma run_chr_stops (k : cclass) (s : string) (pos : nat) (caps : captures)
      (kont : cont) :
  stops k s -> run (Chr k) pos s caps kont = None.
Proof. intros Hs. destruct s as [| c s]; simpl; [reflexivity |]. simpl in Hs. now rewrite Hs. Qed.

Lemma run_opt_some (r : regex) (pos : nat) (s : string) (caps m : captures)
      (kont : cont) :
  run r pos s caps kont = Some m -> run (Opt r) pos s caps kont = Some m.
Proof. intros H. simpl. now rewrite H. Qed.

Lemma run_opt_none (r : regex) (pos : nat) (s : string) (caps : captures)
      (kont : cont) :
  run r pos s caps kont = None -> run (Opt r) pos s caps kont = kont pos s caps.
Proof. intros H. simpl. now rewrite H. Qed.

Lemma all_in_app (k : cclass) (a b : string) :
  all_in k a = true -> all_in k b = true -> all_in k (a ++ b) = true.
Proof.
  intros Ha Hb. induction a as [| c a IH]; simpl; [exact Hb |].
  simpl in Ha. apply andb_true_iff in Ha. destruct Ha as [-> Ha]. now apply IH.
Qed.

(** The end of the name field is not found where the text does not
    start with white space and the volume marker. *)
Lemma field_end_fails (pos : nat) (s : string) (caps : captures) :
  (forall ws r : string,
      all_in Space ws = true -> s = ws ++ "[vol:" ++ r -> False) ->
  run (Seq (Plus Space) (lit "[vol:")) pos s caps (fun _ _ c => Some c) = None.
Proof.
  intros Hno.
  destruct (run (Seq (Plus Space) (lit "[vol:")) pos s caps (fun _ _ c => Some c))
    as [m |] eqn:Hrun; [| reflexivity].
  exfalso. apply run_sound in Hrun.
  destruct Hrun as (pos' & s' & caps' & Hreach & _).
  cbn [reaches lit] in Hreach.
  destruct Hreach
    as (p1 & s1 & c1 & (c0 & u & Hs & Hc0 & Hu & _ & _)
        & p2 & s2 & c2 & (x1 & Hs1 & Hx1 & _ & _)
        & p3 & s3 & c3 & (x2 & Hs2 & Hx2 & _ & _)
        & p4 & s4 & c4 & (x3 & Hs3 & Hx3 & _ & _)
        & p5 & s5 & c5 & (x4 & Hs4 & Hx4 & _ & _)
        & (x5 & Hs5 & Hx5 & _ & _)).
  simpl in Hx1, Hx2, Hx3, Hx4, Hx5.
  apply Ascii.eqb_eq in Hx1, Hx2, Hx3, Hx4, Hx5. subst.
  apply (Hno (String c0 u) s').
  - cbn [all_in]. now rewrite Hc0, Hu.
  - reflexivity.
Qed.

(** The first character of a plain name is not white space, and the name
    has no white space at its end. *)
Lemma plain_name_ends (name : string) :
  plain_name name -> stops Space name /\ rstrip name = name.
Proof.
  intros (Hne & _ & Hstrip & _). split.
  - unfold strip in Hstrip.
    destruct (lstrip_head name) as [Hl | (c & r & Hl & Hc)]; rewrite Hl in Hstrip.
    + simpl in Hstrip. congruence.
    + destruct (rstrip_head c r) as [He | [r' Hr]].
      * rewrite He in Hstrip. congruence.
      * rewrite Hr in Hstrip. subst name. exact Hc.
  - rewrite <- Hstrip at 1. unfold strip. rewrite rstrip_idempotent. exact Hstrip.
Qed.

Lemma stops_app (k : cclass) (a b : string) :
  a <> EmptyString -> stops k a -> stops k (a ++ b).
Proof. destruct a; [contradiction | intros _ H; exact H]. Qed.

(** From the identifier on: the digits are group 2, the name is group
    3. *)
Lemma run_fields (digits sep1 name sep2 rest : string) (pos : nat) (caps : captures) :
  digits <> EmptyString -> all_in Digit digits = true ->
  sep1 <> EmptyString -> all_in Space sep1 = true ->
  plain_name name ->
  sep2 <> EmptyString -> all_in Space sep2 = true ->
  run (Seq (Group 2 (Plus Digit))
      (Seq (Chr (Lit "."))
      (Seq (Plus Space)
      (Seq (Group 3 (PlusLazy Dot))
      (Seq (Plus Space) (lit "[vol:"))))))
      pos (digits ++ String "." (sep1 ++ name ++ sep2 ++ "[vol:" ++ rest)) caps
      (fun _ _ c => Some c)
  = Some ((3%nat, ((pos + String.length digits + 1 + String.length sep1)%nat,
                   (pos + String.length digits + 1 + String.length sep1
                    + String.length name)%nat))
            :: (2%nat, (pos, (pos + String.length digits)%nat)) :: caps).
Proof.
  intros Hdne Hd Hs1ne Hs1 Hname Hs2ne Hs2.
  destruct (plain_name_ends name Hname) as [Hhead Hr].
  destruct Hname as (Hnne & Hdot & _ & Hno).
  rewrite run_seq, run_group.
  apply run_plus_max; [exact Hdne | exact Hd | reflexivity |]. cbv beta.
  rewrite run_seq, run_chr by reflexivity. cbv beta.
  rewrite run_seq.
  apply run_plus_max; [exact Hs1ne | exact Hs1 | now apply stops_app |]. cbv beta.
  rewrite run_seq, run_group.
  apply run_plus_lazy_first; [exact Hnne | exact Hdot | |].
  - rewrite run_seq.
    apply run_plus_max; [exact Hs2ne | exact Hs2 | reflexivity |]. cbv beta.
    rewrite run_lit by discriminate.
    repeat f_equal; lia.
  - intros u1 u2 Hsplit Hne1 Hne2.
    apply field_end_fails. intros ws r Hws Heq.
    now apply (no_marker_inside name u1 u2 sep2 rest ws r).
Qed.

Lemma run_bol (s : string) (caps : captures) (kont : cont) :
  run Bol 0 s caps kont = kont 0%nat s caps.
Proof. reflexivity. Qed.

(** The start of a line: the white space [^\s*] takes, then what group 1
    holds, which is empty or an asterisk and white space. *)
Lemma run_line_start (lead held tail : string) (m : captures) :
  all_in Space lead = true ->
  (held = EmptyString
   \/ exists u : string, held = String "*" u /\ all_in Space u = true) ->
  stops Space tail -> stops (Lit "*") tail ->
  run (Seq (Group 2 (Plus Digit))
      (Seq (Chr (Lit "."))
      (Seq (Plus Space)
      (Seq (Group 3 (PlusLazy Dot))
      (Seq (Plus Space) (lit "[vol:"))))))
      (String.length lead + String.length held)%nat tail
      [(1%nat, (String.length lead, (String.length lead + String.length held)%nat))]
      (fun _ _ c => Some c) = Some m ->
  run line_re 0 (lead ++ held ++ tail) [] (fun _ _ c => Some c) = Some m.
Proof.
  intros Hlead Hheld Hsp Hst Htail.
  unfold line_re. rewrite run_seq, run_bol. cbv beta. rewrite run_seq.
  destruct Hheld as [-> | (u & -> & Hu)].
  - apply run_star_max; [exact Hlead | exact Hsp |]. cbv beta.
    rewrite run_seq. apply run_opt_some. rewrite run_group, run_seq.
    rewrite run_opt_none by (now apply run_chr_stops). cbv beta.
    change (EmptyString ++ tail) with tail.
    change tail with (EmptyString ++ tail) at 1.
    apply run_star_max; [reflexivity | exact Hsp |]. cbv beta.
    exact Htail.
  - apply run_star_max; [exact Hlead | reflexivity |]. cbv beta.
    rewrite run_seq. apply run_opt_some. rewrite run_group, run_seq.
    apply run_opt_some.
    change (String "*" u ++ tail) with (String "*" (u ++ tail)).
    rewrite run_chr by reflexivity. cbv beta.
    apply run_star_max; [exact Hu | exact Hsp |]. cbv beta.
    cbn [String.length] in Htail. rewrite Nat.add_succ_r in Htail.
    exact Htail.
Qed.

Lemma slice_at (pre d rest : string) (i j : nat) :
  i = String.length pre -> j = (String.length pre + String.length d)%nat ->
  slice (pre ++ d ++ rest) i j = d.
Proof. intros -> ->. apply slice_middle. Qed.

(** The entry of a line in the documented layout. *)
Lemma sink_line_matches (lead mark digits sep1 name sep2 rest : string) :
  all_in Space lead = true ->
  is_marker mark ->
  digits <> EmptyString -> all_in Digit digits = true ->
  sep1 <> EmptyString -> all_in Space sep1 = true ->
  plain_name name ->
  sep2 <> EmptyString -> all_in Space sep2 = true ->
  entry_of_line (sink_line lead mark digits sep1 name sep2 rest)
  = Some (name, digits).
Proof.
  intros Hlead (u & Hu & Hmark) Hdne Hd Hs1ne Hs1 Hname Hs2ne Hs2.
  set (tail := digits ++ String "." (sep1 ++ name ++ sep2 ++ "[vol:" ++ rest)).
  assert (Htail : stops Space tail /\ stops (Lit "*") tail).
  { unfold tail. destruct digits as [| c ds]; [contradiction |].
    cbn [all_in] in Hd. apply andb_true_iff in Hd. destruct Hd as [Hc _].
    cbn [in_class] in Hc. cbn [append stops in_class].
    destruct (digit_is_visible c Hc) as [Hvis _]. split; [exact Hvis |].
    destruct (Ascii.eqb_spec c "*") as [-> | Hne]; [discriminate Hc | reflexivity]. }
  destruct Htail as [Hsp Hst].
  assert (Hmatch :
            exists g1 : nat * nat,
              run line_re 0 (sink_line lead mark digits sep1 name sep2 rest) []
                  (fun _ _ c => Some c)
              = Some ((3%nat,
                       ((String.length (lead ++ mark) + String.length digits + 1
                         + String.length sep1)%nat,
                        (String.length (lead ++ mark) + String.length digits + 1
                         + String.length sep1 + String.length name)%nat))
                        :: (2%nat, (String.length (lead ++ mark),
                                    (String.length (lead ++ mark)
                                     + String.length digits)%nat))
                        :: [(1%nat, g1)])).
  { unfold sink_line. fold tail. destruct Hmark as [-> | ->].
    - exists (String.length (lead ++ u),
              (String.length (lead ++ u) + String.length EmptyString)%nat).
      rewrite <- append_assoc.
      change ((lead ++ u) ++ tail) with ((lead ++ u) ++ EmptyString ++ tail).
      apply run_line_start; [now apply all_in_app | now left | exact Hsp | exact Hst |].
      unfold tail.
      rewrite (run_fields digits sep1 name sep2 rest _ _ Hdne Hd Hs1ne Hs1 Hname Hs2ne Hs2).
      cbn [String.length]. repeat f_equal; lia.
    - exists (String.length lead,
              (String.length lead + String.length (String "*" u))%nat).
      apply run_line_start;
        [exact Hlead | right; now exists u | exact Hsp | exact Hst |].
      unfold tail.
      rewrite (run_fields digits sep1 name sep2 rest _ _ Hdne Hd Hs1ne Hs1 Hname Hs2ne Hs2).
      rewrite !length_append. cbn [String.length]. repeat f_equal; lia. }
  destruct Hmatch as [g1 Hmatch].
  unfold entry_of_line, re_match. rewrite Hmatch.
  unfold group. cbn [spans subject span_of Nat.eqb].
  assert (H3 : slice (sink_line lead mark digits sep1 name sep2 rest)
                     (String.length (lead ++ mark) + String.length digits + 1
                      + String.length sep1)
                     (String.length (lead ++ mark) + String.length digits + 1
                      + String.length sep1 + String.length name) = name).
  { replace (sink_line lead mark digits sep1 name sep2 rest)
      with (((lead ++ mark) ++ digits ++ String "." sep1)
              ++ name ++ (sep2 ++ "[vol:" ++ rest)).
    - apply slice_at; [| f_equal]; rewrite !length_append; cbn [String.length]; lia.
    - unfold sink_line. rewrite !append_assoc. cbn [append].
      now rewrite ?append_assoc. }
  assert (H2 : slice (sink_line lead mark digits sep1 name sep2 rest)
                     (String.length (lead ++ mark))
                     (String.length (lead ++ mark) + String.length digits) = digits).
  { unfold sink_line. rewrite <- (append_assoc lead mark). apply slice_middle. }
  rewrite H3, H2.
  destruct Hname as (_ & _ & -> & _). reflexivity.
Qed.

(** A line in the layout the source documents, with a plain name, gives
    back the name and the digits of the identifier as they stand: the
    marker, the white space and the volume field leave no trace. *)
Theorem sink_line_entry (lead mark digits sep1 name sep2 rest : string) :
  all_in Space lead = true ->
  is_marker mark ->
  digits <> EmptyString -> all_in Digit digits = true ->
  sep1 <> EmptyString -> all_in Space sep1 = true ->
  plain_name name ->
  sep2 <> EmptyString -> all_in Space sep2 = true ->
  entry_of_line (sink_line lead mark digits sep1 name sep2 rest)
  = Some (name, digits).
Proof.
  intros Hlead Hmark Hdne Hd Hs1ne Hs1 Hname Hs2ne Hs2.
  exact (sink_line_matches lead mark digits sep1 name sep2 rest
           Hlead Hmark Hdne Hd Hs1ne Hs1 Hname Hs2ne Hs2).
Qed.

End SinkLines.

(* ================================================================== *)
(** * Status texts in the documented layout *)
(* ================================================================== *)

Section StatusTexts.
Import PyStr Re.

(** ** Lines of a text *)

Lemma splitlines_from_line (l : string) :
  one_line l = true ->
  forall cur rest : string,
    splitlines_from cur (l ++ String LF rest)
    = (cur ++ l) :: splitlines_from EmptyString rest.
Proof.
  induction l as [| c l IH]; intros Hl cur rest.
  - rewrite append_nil_r. cbn [append splitlines_from].
    change (islinebreak LF) with true. cbv iota.
    destruct rest as [| c' rest']; [reflexivity |].
    change (Ascii.eqb LF CR) with false. reflexivity.
  - cbn [one_line] in Hl. apply andb_true_iff in Hl. destruct Hl as [Hc Hl].
    apply negb_true_iff in Hc.
    cbn [append splitlines_from]. rewrite Hc.
    rewrite (IH Hl). unfold snoc. now rewrite append_assoc.
Qed.

(** Lines without line boundaries, each ended by a line feed, are the
    lines [splitlines] finds. *)
Lemma splitlines_unlines (lines : list string) :
  Forall (fun l => one_line l = true) lines ->
  splitlines (unlines lines) = lines.
Proof.
  unfold splitlines. induction 1 as [| l lines Hl _ IH]; [reflexivity |].
  cbn [unlines]. rewrite (splitlines_from_line l Hl). now rewrite IH.
Qed.

(** ** Section headers and sink lines *)

Lemma after_first_skips (p : string -> bool) (before rest : list string) (hdr : string) :
  (forall l : string, In l before -> p l = false) -> p hdr = true ->
  after_first p (before ++ hdr :: rest)%list = rest.
Proof.
  intros Hno Hhdr. induction before as [| l before IH]; simpl.
  - now rewrite Hhdr.
  - rewrite (Hno l (or_introl eq_refl)). apply IH.
    intros l' Hl'. apply Hno. now right.
Qed.

Lemma up_to_first_takes (p : string -> bool) (body rest : list string) (src : string) :
  (forall l : string, In l body -> p l = false) -> p src = true ->
  up_to_first p (body ++ src :: rest)%list = body.
Proof.
  intros Hno Hsrc. induction body as [| l body IH]; simpl.
  - now rewrite Hsrc.
  - rewrite (Hno l (or_introl eq_refl)). f_equal. apply IH.
    intros l' Hl'. apply Hno. now right.
Qed.

(** A line that starts, after white space, with a character other than
    S is neither header. *)
Lemma not_a_header (u : string) (c : ascii) (s : string) :
  all_in Space u = true -> isspace c = false -> c <> "S"%char ->
  is_sinks_header (u ++ String c s) = false
  /\ is_sources_header (u ++ String c s) = false.
Proof.
  intros Hu Hc HS. unfold is_sinks_header, is_sources_header, startswith.
  destruct (strip (u ++ String c s)) as [| x r] eqn:Hstrip; [now split |].
  apply strip_head in Hstrip; [| exact Hu | exact Hc]. subst x.
  cbn [String.prefix]. destruct (ascii_dec "S" c) as [Heq | Hne]; [| now split].
  exfalso. apply HS. symmetry. exact Heq.
Qed.

Lemma row_line_not_header (r : SinkRow) :
  well_laid r ->
  is_sinks_header (row_line r) = false /\ is_sources_header (row_line r) = false.
Proof.
  intros (Hlead & (u & Hu & Hmark) & Hdne & Hd & _).
  unfold row_line, sink_line.
  destruct (row_digits r) as [| c ds]; [contradiction |].
  cbn [all_in in_class] in Hd. apply andb_true_iff in Hd. destruct Hd as [Hc _].
  destruct (digit_is_visible c Hc) as [Hvis HS].
  destruct Hmark as [-> | ->].
  - rewrite <- append_assoc. cbn [append].
    apply not_a_header; [now apply all_in_app | exact Hvis | exact HS].
  - cbn [append]. apply not_a_header; [exact Hlead | reflexivity | discriminate].
Qed.

Lemma row_line_entry (r : SinkRow) :
  well_laid r -> entry_of_line (row_line r) = Some (row_name r, row_digits r).
Proof.
  intros (Hlead & Hmark & Hdne & Hd & _ & Hs1ne & Hs1 & Hname & Hs2ne & Hs2 & _).
  now apply sink_line_matches.
Qed.

Lemma entries_of_rows (rows : list SinkRow) :
  Forall well_laid rows ->
  entries_of (map row_line rows) = map (fun r => (row_name r, row_digits r)) rows.
Proof.
  induction 1 as [| r rows Hr _ IH]; [reflexivity |].
  cbn [map]. rewrite entries_of_cons, (row_line_entry r Hr), IH. reflexivity.
Qed.

(** Writing rows with distinct names appends their entries in order. *)
Lemma fold_write_distinct (rows : list SinkRow) :
  forall out : PyDict.dict string Z,
    NoDup (PyDict.keys out ++ map row_name rows) ->
    fold_left write_entry (map (fun r => (row_name r, row_digits r)) rows) out
    = (out ++ map row_entry rows)%list.
Proof.
  induction rows as [| r rows IH]; intros out Hnd.
  - simpl. now rewrite app_nil_r.
  - cbn [map fold_left]. unfold write_entry at 2. cbn [fst snd].
    assert (Hfresh : ~ In (row_name r) (PyDict.keys out)).
    { intros Hin. cbn [map] in Hnd. apply NoDup_remove_2 in Hnd. apply Hnd.
      apply in_or_app. now left. }
    rewrite (set_fresh String.eqb String.eqb_spec _ _ out Hfresh).
    rewrite IH.
    + rewrite <- app_assoc. reflexivity.
    + unfold PyDict.keys in *. rewrite map_app, <- app_assoc. exact Hnd.
Qed.

(** A status text whose sinks section holds well laid rows with distinct
    names is read back exactly: whatever lines come before the sinks
    header (none of them a sinks header) and after the sources header,
    the resolver returns the names and identifiers of the rows, in the
    order of the rows. *)
Theorem status_round_trip (before after : list string) (hdr src : string)
        (rows : list SinkRow) :
  Forall (fun l => one_line l = true) (before ++ hdr :: src :: after)%list ->
  (forall l : string, In l before -> is_sinks_header l = false) ->
  is_sinks_header hdr = true ->
  is_sources_header src = true ->
  Forall well_laid rows ->
  NoDup (map row_name rows) ->
  parse_sinks (unlines (before ++ hdr :: map row_line rows ++ src :: after)%list)
  = inr (map row_entry rows).
Proof.
  intros Hlines Hbefore Hhdr Hsrc Hrows Hnd.
  assert (Hsplit : splitlines (unlines (before ++ hdr :: map row_line rows
                                           ++ src :: after)%list)
                   = (before ++ hdr :: map row_line rows ++ src :: after)%list).
  { apply splitlines_unlines.
    apply Forall_app in Hlines. destruct Hlines as [Hb Hrest].
    inversion Hrest as [| ? ? Hh Hrest']; subst.
    apply Forall_app. split; [exact Hb |].
    constructor; [exact Hh |].
    apply Forall_app. split; [| exact Hrest'].
    apply Forall_forall. intros l Hl. apply in_map_iff in Hl.
    destruct Hl as (r & <- & Hr).
    rewrite Forall_forall in Hrows. now apply (Hrows r Hr). }
  assert (Hsection : sinks_section (before ++ hdr :: map row_line rows
                                      ++ src :: after)%list
                     = map row_line rows).
  { unfold sinks_section. rewrite (after_first_skips _ before _ hdr Hbefore Hhdr).
    apply up_to_first_takes; [| exact Hsrc].
    intros l Hl. apply in_map_iff in Hl. destruct Hl as (r & <- & Hr).
    rewrite Forall_forall in Hrows. now apply row_line_not_header, Hrows. }
  unfold parse_sinks. rewrite Hsplit, sink_lines_loop_enters.
  fold (sinks_section (before ++ hdr :: map row_line rows ++ src :: after)%list)
    in Hsection.
  rewrite sink_lines_loop_fold.
  - unfold sinks_section in Hsection. rewrite Hsection.
    rewrite (entries_of_rows rows Hrows).
    now rewrite (fold_write_distinct rows [] Hnd).
  - unfold sinks_section in Hsection. rewrite Hsection.
    rewrite (entries_of_rows rows Hrows).
    intros n d Hin. apply in_map_iff in Hin. destruct Hin as (r & [= <- <-] & Hr).
    rewrite Forall_forall in Hrows.
    destruct (Hrows r Hr) as (_ & _ & _ & _ & Hlen & _). exact Hlen.
Qed.

End StatusTexts.

(* ================================================================== *)
(** * Values outside the MIDI range *)
(* ================================================================== *)

Section WideValues.





End WideValues.

(* ================================================================== *)
(** * The bus identifier table *)
(* ================================================================== *)

Section BusTable.
Local Open Scope py_scope.

(** When the configured controllers are distinct and every configured
    bus has a sink, the loop over the configuration prints nothing and
    returns the table that gives each configured controller the
    identifier of its bus, in the order of the configuration, and has no
    other key. *)
Theorem bus_table_lookup (CC_TO_BUS : PyDict.dict Z string)
        (sinks : PyDict.dict string Z) (w : World) (t : list Event) :
  NoDup (PyDict.keys CC_TO_BUS) ->
  (forall (cc : Z) (bus : string),
      In (cc, bus) CC_TO_BUS -> PyDict.mem String.eqb bus sinks = true) ->
  resolve_buses CC_TO_BUS sinks [] w t = (inr (bus_table CC_TO_BUS sinks), t)
  /\ PyDict.keys (bus_table CC_TO_BUS sinks) = PyDict.keys CC_TO_BUS
  /\ (forall (cc : Z) (bus : string),
         In (cc, bus) CC_TO_BUS ->
         PyDict.get Z.eqb cc (bus_table CC_TO_BUS sinks)
         = PyDict.get String.eqb bus sinks)
  /\ (forall cc : Z,
         ~ In cc (PyDict.keys CC_TO_BUS) ->
         PyDict.mem Z.eqb cc (bus_table CC_TO_BUS sinks) = false).
Proof.
  intros Hnd Hall.
  pose proof (bus_table_keys sinks CC_TO_BUS Hall) as Hkeys.
  split; [| split; [exact Hkeys | split]].
  - now rewrite (resolve_buses_ok sinks CC_TO_BUS [] w t Hnd Hall).
  - intros cc bus Hin.
    assert (Hmem := Hall cc bus Hin). unfold PyDict.mem in Hmem.
    destruct (PyDict.get String.eqb bus sinks) as [id |] eqn:Hget; [| discriminate].
    apply (get_of_nodup Z.eqb Z.eqb_spec); [now rewrite Hkeys |].
    unfold bus_table.
    apply (in_map (fun x : Z * (string * Z) => (fst x, snd (snd x)))
                  _ (cc, (bus, id))).
    now apply in_joined.
  - intros cc Hnot. unfold PyDict.mem.
    rewrite <- Hkeys in Hnot.
    apply (get_none_iff Z.eqb Z.eqb_spec) in Hnot. now rewrite Hnot.
Qed.

End BusTable.

(* ================================================================== *)
(** * Letter case in the port locator *)
(* ================================================================== *)

Section LetterCase.
Import PyStr.





End LetterCase.

(* ================================================================== *)
(** * More concrete runs *)
(* ================================================================== *)

Section MoreRuns.
Import PyStr.
Local Open Scope py_scope.

Lemma default_keys_distinct : NoDup (PyDict.keys default_CC_TO_BUS).
Proof.
  repeat constructor; simpl; intros H;
    repeat (destruct H as [H | H]; [discriminate H |]); exact H.
Qed.

Lemma three_buses_parsed :
  parse_sinks status_three_buses = inr [("VM-GAME", 97); ("VM-CHAT", 98); ("VM-MUSIC", 99)].
Proof. vm_compute. reflexivity. Qed.

Lemma three_buses_found (cc : Z) (bus : string) :
  In (cc, bus) default_CC_TO_BUS ->
  PyDict.mem String.eqb bus [("VM-GAME", 97); ("VM-CHAT", 98); ("VM-MUSIC", 99)] = true.
Proof.
  intros [[= <- <-] | [[= <- <-] | [[= <- <-] | []]]]; reflexivity.
Qed.

Lemma main_runs_witness :
  main default_MIDI_PORT_HINT default_CC_TO_BUS
       (world_of status_three_buses ["Midi Through Port-0"; "LPD8 MIDI 1"]
                 [control_change 2 64; note_on]) []
  = (inr tt,
     [Printed "Scanning PipeWire sinks...";
      Ran ["wpctl"; "status"];
      ListedInputs;
      Printed "Listening on MIDI: LPD8 MIDI 1";
      Printed "Mapping: {1: ('VM-GAME', 97), 2: ('VM-CHAT', 98), 3: ('VM-MUSIC', 99)}";
      Printed "Move knobs now... (Ctrl+C to exit)";
      OpenedInput "LPD8 MIDI 1";
      Received (control_change 2 64);
      Ran ["wpctl"; "set-volume"; "98"; "50%"];
      Received note_on;
      ClosedInput "LPD8 MIDI 1"]).
Proof.
  rewrite (main_runs default_MIDI_PORT_HINT default_CC_TO_BUS
             [("VM-GAME", 97); ("VM-CHAT", 98); ("VM-MUSIC", 99)]
             (world_of status_three_buses ["Midi Through Port-0"; "LPD8 MIDI 1"]
                       [control_change 2 64; note_on])
             status_three_buses ["Midi Through Port-0"; "LPD8 MIDI 1"] "LPD8 MIDI 1").
  - vm_compute. reflexivity.
  - reflexivity.
  - exact three_buses_parsed.
  - exact default_keys_distinct.
  - exact three_buses_found.
  - reflexivity.
  - vm_compute. reflexivity.
Defined.

Lemma main_port_not_found_witness :
  exit_status (fst (main default_MIDI_PORT_HINT default_CC_TO_BUS
                      (world_of status_three_buses ["Midi Through Port-0"] []) [])) = 1.
Proof.
  apply (main_port_not_found default_MIDI_PORT_HINT default_CC_TO_BUS
           (world_of status_three_buses ["Midi Through Port-0"] [])
           status_three_buses
           [("VM-GAME", 97); ("VM-CHAT", 98); ("VM-MUSIC", 99)]
           ["Midi Through Port-0"]).
  - reflexivity.
  - exact three_buses_parsed.
  - exact three_buses_found.
  - reflexivity.
  - intros q [<- | []] Hq. apply contains_iff in Hq. vm_compute in Hq. discriminate.
Defined.

Lemma main_status_error_witness :
  main default_MIDI_PORT_HINT default_CC_TO_BUS world_without_wpctl []
  = (inl (CalledProcessError ["wpctl"; "status"]),
     [Printed "Scanning PipeWire sinks..."; Ran ["wpctl"; "status"]]).
Proof.
  apply (main_status_error default_MIDI_PORT_HINT default_CC_TO_BUS
           world_without_wpctl (CalledProcessError ["wpctl"; "status"])).
  left. reflexivity.
Defined.

Lemma bus_table_lookup_witness :
  resolve_buses default_CC_TO_BUS
                [("VM-MUSIC", 99); ("VM-GAME", 97); ("Astro A50 Game", 103); ("VM-CHAT", 98)]
                [] world_without_wpctl []
  = (inr [(1, 97); (2, 98); (3, 99)], []).
Proof.
  apply (bus_table_lookup default_CC_TO_BUS
           [("VM-MUSIC", 99); ("VM-GAME", 97); ("Astro A50 Game", 103); ("VM-CHAT", 98)]
           world_without_wpctl []).
  - exact default_keys_distinct.
  - intros cc bus [[= <- <-] | [[= <- <-] | [[= <- <-] | []]]]; reflexivity.
Defined.

Lemma repeated_entries_short (n d : string) :
  In (n, d) (section_entries (splitlines status_repeated)) ->
  (String.length d <= PyInt.int_max_str_digits)%nat.
Proof.
  intros Hin. vm_compute in Hin.
  destruct Hin as [[= <- <-] | [[= <- <-] | [[= <- <-] | []]]];
    apply Nat.leb_le; vm_compute; reflexivity.
Qed.

Lemma sink_table_name_order_witness :
  exists out : PyDict.dict string Z,
    parse_sinks status_repeated = inr out
    /\ PyDict.keys out = ["VM-GAME"; "VM-CHAT"].
Proof.
  destruct (sink_table_name_order status_repeated repeated_entries_short)
    as (out & Hrun & Hkeys).
  exists out. split; [exact Hrun |]. rewrite Hkeys. vm_compute. reflexivity.
Defined.

Lemma sink_table_invariants_witness :
  NoDup (PyDict.keys [("VM-GAME", 97); ("VM-CHAT", 41)])
  /\ forall (name : string) (id : Z),
       In (name, id) [("VM-GAME", 97); ("VM-CHAT", 41)] ->
       strip name = name /\ 0 <= id.
Proof.
  apply (sink_table_invariants status_repeated [("VM-GAME", 97); ("VM-CHAT", 41)]).
  vm_compute. reflexivity.
Defined.

Lemma sink_id_too_long_witness :
  parse_sinks status_long_id = inl (PyInt.exceeds_limit (repeat_char "7" 4301)).
Proof.
  apply (sink_id_too_long status_long_id [("VM-GAME", "97")] [] "VM-CHAT").
  - vm_compute. reflexivity.
  - intros n d [[= <- <-] | []]. apply Nat.leb_le. vm_compute. reflexivity.
  - apply Nat.ltb_lt. vm_compute. reflexivity.
Defined.

Lemma astro_is_plain : plain_name "Astro A50 Game".
Proof.
  repeat split; try discriminate; try reflexivity.
  intros H. apply contains_iff in H. vm_compute in H. discriminate.
Qed.

Lemma game_is_plain : plain_name "VM-GAME".
Proof.
  repeat split; try discriminate; try reflexivity.
  intros H. apply contains_iff in H. vm_compute in H. discriminate.
Qed.

Lemma sink_line_entry_witness :
  entry_of_line "  *  103. Astro A50 Game   [vol: 1.00]"
  = Some ("Astro A50 Game", "103").
Proof.
  apply (sink_line_entry "  " "*  " "103" " " "Astro A50 Game" "   " " 1.00]").
  - reflexivity.
  - exists "  ". split; [reflexivity | now right].
  - discriminate.
  - reflexivity.
  - discriminate.
  - reflexivity.
  - exact astro_is_plain.
  - discriminate.
  - reflexivity.
Defined.

Lemma rows_well_laid : Forall well_laid [row_game; row_astro].
Proof.
  repeat constructor; try discriminate; try reflexivity;
    try (apply Nat.leb_le; vm_compute; reflexivity);
    try (intros H; apply contains_iff in H; vm_compute in H; discriminate).
  - exists EmptyString. split; [reflexivity | now left].
  - exists "  ". split; [reflexivity | now right].
Qed.

Lemma status_round_trip_witness :
  parse_sinks (unlines ["Audio"; " Sources:"; " Sinks:";
                        "   97. VM-GAME [vol: 1.00]";
                        " *  103. Astro A50 Game   [vol: 0.40]";
                        " Sources:"; "   55. Microphone [vol: 0.80]"])
  = inr [("VM-GAME", 97); ("Astro A50 Game", 103)].
Proof.
  apply (status_round_trip ["Audio"; " Sources:"] ["   55. Microphone [vol: 0.80]"]
           " Sinks:" " Sources:" [row_game; row_astro]).
  - repeat constructor.
  - intros l [<- | [<- | []]]; reflexivity.
  - reflexivity.
  - reflexivity.
  - exact rows_well_laid.
  - repeat constructor; simpl; intros H;
      repeat (destruct H as [H | H]; [discriminate H |]); exact H.
Defined.

End MoreRuns.
